(** * Column-name sanitisation and the load step of the IMDb DAG

    A shallow embedding of [airflow/dags/load_imdb_movie_datasets_local.py]:
    the pure helper [_sanitize_columns], the availability probe
    [check_file_exists], the build step [csv_url_to_parquet], the warehouse
    load [load_parquet_to_bigquery], the constants read from the environment
    and the tasks and edges that the loop over [GENRES] creates.

    A Python [str] is a sequence of Unicode code points; it is modelled as a
    list of code-point numbers.  The ASCII rows of the interpreter's character
    tables are written out; the rows above U+007F are taken from a
    [UnicodeData] structure, so that every result below holds for whatever
    those rows contain. *)

From Stdlib Require Import NArith ZArith Decimal DecimalN Ascii String.
From stdpp Require Import base option list gmap fin_sets strings.

Local Open Scope N_scope.

(** ** Strings *)

Definition str := list N.

(** Code points of a literal, for writing examples. *)
Definition py (s : string) : str :=
  map N_of_ascii (list_ascii_of_string s).

(** Rows of the character tables above U+007F: whitespace property, full
    lower-case mapping (which may depend on the characters before and after,
    and may yield several code points) and digit property. *)
Class UnicodeData := {
  uni_isspace : N → bool;
  uni_tolower : str → N → str → str;
  uni_isdigit : N → bool
}.

(** A table that leaves every code point above U+007F unchanged, and counts
    none of them as whitespace or digit.  Used to run concrete inputs. *)
Definition ascii_only : UnicodeData :=
  {| uni_isspace := λ _, false;
     uni_tolower := λ _ c _, [c];
     uni_isdigit := λ _, false |}.

Definition ascii_isspace (c : N) : bool :=
  ((9 <=? c) && (c <=? 13)) || ((28 <=? c) && (c <=? 32)).

Definition ascii_tolower (c : N) : N :=
  if (65 <=? c) && (c <=? 90) then c + 32 else c.

Definition ascii_isdigit (c : N) : bool :=
  (48 <=? c) && (c <=? 57).

Section Str.
Context {U : UnicodeData}.

Definition isspace (c : N) : bool :=
  if c <? 128 then ascii_isspace c else uni_isspace c.

(** [ch.isdigit()] for a one-character string. *)
Definition isdigit (c : N) : bool :=
  if c <? 128 then ascii_isdigit c else uni_isdigit c.

(** [str.lower()]: each character is mapped in turn; [pre] holds the
    characters already passed. *)
Fixpoint lower_from (pre s : str) : str :=
  match s with
  | [] => []
  | c :: t =>
      (if c <? 128 then [ascii_tolower c] else uni_tolower pre c t)
        ++ lower_from (pre ++ [c]) t
  end.

Definition lower (s : str) : str := lower_from [] s.

Fixpoint lstrip_where (p : N → bool) (s : str) : str :=
  match s with
  | [] => []
  | c :: t => if p c then lstrip_where p t else s
  end.

Definition rstrip_where (p : N → bool) (s : str) : str :=
  reverse (lstrip_where p (reverse s)).

Definition strip_where (p : N → bool) (s : str) : str :=
  rstrip_where p (lstrip_where p s).

(** [s.strip()] *)
Definition strip (s : str) : str := strip_where isspace s.

(** [s.strip(chars)] *)
Definition strip_chars (chars s : str) : str :=
  strip_where (λ c, bool_decide (c ∈ chars)) s.
End Str.

(** ** The two regular expressions

    Both patterns have the shape [[class]+].  A class is a list of inclusive
    code-point ranges, possibly negated. *)

Record char_class := {
  negated : bool;
  ranges : list (N * N)
}.

Definition class_matches (cl : char_class) (c : N) : bool :=
  xorb (negated cl) (existsb (λ r, (fst r <=? c) && (c <=? snd r)) (ranges cl)).

(** [[^0-9a-z_]] *)
Definition not_word : char_class :=
  {| negated := true; ranges := [(48, 57); (97, 122); (95, 95)] |}.

(** [_] *)
Definition underscore : char_class :=
  {| negated := false; ranges := [(95, 95)] |}.

(** [re.sub(cl+, repl, s)].  The scanner walks the subject once.  A match
    starts at a class character that does not continue a match and, the
    quantifier being greedy, runs to the last class character of the run;
    [repl] is written once per match and every other character is copied.
    [in_match] tells whether the previous character belongs to a match. *)
Fixpoint sub_scan (cl : char_class) (repl : str) (in_match : bool) (s : str) : str :=
  match s with
  | [] => []
  | c :: t =>
      if class_matches cl c
      then (if in_match then [] else repl) ++ sub_scan cl repl true t
      else c :: sub_scan cl repl false t
  end.

Definition re_sub_plus (cl : char_class) (repl s : str) : str :=
  sub_scan cl repl false s.

(** ** Decimal rendering of the counter in [f'{base}_{i}'] *)

Fixpoint uint_digits (d : Decimal.uint) : str :=
  match d with
  | Nil => []
  | D0 d => 48 :: uint_digits d
  | D1 d => 49 :: uint_digits d
  | D2 d => 50 :: uint_digits d
  | D3 d => 51 :: uint_digits d
  | D4 d => 52 :: uint_digits d
  | D5 d => 53 :: uint_digits d
  | D6 d => 54 :: uint_digits d
  | D7 d => 55 :: uint_digits d
  | D8 d => 56 :: uint_digits d
  | D9 d => 57 :: uint_digits d
  end.

Definition decimal (i : N) : str := uint_digits (N.to_uint i).

(** [f'{base}_{i}'] *)
Definition fstring (base : str) (i : N) : str := base ++ [95] ++ decimal i.

(** ** [_sanitize_columns] *)

Section Sanitize.
Context {U : UnicodeData}.

(** Lines 21-23: trimmed, lower-cased, substituted and stripped. *)
Definition scrubbed (c : str) : str :=
  let s := lower (strip c) in
  let s := re_sub_plus not_word (py "_") s in
  strip_chars (py "_") (re_sub_plus underscore (py "_") s).

(** Lines 21-25: the name of one label before the uniqueness loop;
    [not s or s[0].isdigit()] looks at [s[0]] only when [s] is not empty. *)
Definition candidate (c : str) : str :=
  let s := scrubbed c in
  if match s with [] => true | c0 :: _ => isdigit c0 end
  then py "c_" ++ s
  else s.

(** The names that [fuel] evaluations of the loop condition look at. *)
Fixpoint tried (fuel : nat) (base : str) (i : N) (s : str) : list str :=
  match fuel with
  | O => []
  | S fuel' => s :: tried fuel' base (i + 1) (fstring base (i + 1))
  end.

(** Lines 26-29: [while s in used: i += 1; s = f'{base}_{i}'].  Python
    integers are unbounded and the loop has no bound of its own, so the
    model counts the evaluations of the loop condition that it may make:
    [None] means that [fuel] evaluations were not enough. *)
Fixpoint while_in_used (fuel : nat) (used : gset str) (base : str) (i : N) (s : str)
  : option str :=
  match fuel with
  | O => None
  | S fuel' =>
      if decide (s ∈ used)
      then while_in_used fuel' used base (i + 1) (fstring base (i + 1))
      else Some s
  end.

(** Lines 20-31: the body of [for c in cols], threading [new] and [used]. *)
Fixpoint for_cols (fuel : nat) (cols new : list str) (used : gset str)
  : option (list str) :=
  match cols with
  | [] => Some new
  | c :: rest =>
      let s := candidate c in
      match while_in_used fuel used s 1 s with
      | None => None
      | Some s' => for_cols fuel rest (new ++ [s']) ({[ s' ]} ∪ used)
      end
  end.

(** Lines 18-32; [fuel] bounds each run of the inner loop. *)
Definition _sanitize_columns (fuel : nat) (cols : list str) : option (list str) :=
  for_cols fuel cols [] ∅.

(** The call [_sanitize_columns(cols)] returns [out]. *)
Definition returns (cols out : list str) : Prop :=
  ∃ fuel, _sanitize_columns fuel cols = Some out.
End Sanitize.

(** ** The normalisation rules as the specification words them

    Used only to compare with [candidate]. *)

(** Lower-case ASCII letter, digit or underscore. *)
Definition in_word_class (c : N) : bool :=
  ((97 <=? c) && (c <=? 122)) || ascii_isdigit c || (c =? 95).

Definition is_underscore (c : N) : bool := c =? 95.

(** The maximal runs of [s], each tagged with the value of [p] on it. *)
Fixpoint runs (p : N → bool) (s : str) : list (bool * str) :=
  match s with
  | [] => []
  | c :: t =>
      match runs p t with
      | (b, r) :: rest =>
          if Bool.eqb (p c) b then (b, c :: r) :: rest
          else (p c, [c]) :: (b, r) :: rest
      | [] => [(p c, [c])]
      end
  end.

(** A list of tagged runs with every run tagged [true] replaced by [repl]. *)
Definition rewrite_runs (repl : str) (l : list (bool * str)) : str :=
  concat (map (λ br : bool * str, if fst br then repl else snd br) l).

(** Every maximal run of [p]-characters becomes a single underscore. *)
Definition replace_runs (p : N → bool) (s : str) : str :=
  rewrite_runs (py "_") (runs p s).

Section SpecWords.
Context {U : UnicodeData}.

Definition spec_candidate (c : str) : str :=
  let s := lower (strip c) in                                   (* step 1 *)
  let s := replace_runs (λ c, negb (in_word_class c)) s in      (* step 2 *)
  let s := strip_where is_underscore (replace_runs is_underscore s) in  (* step 3 *)
  match s with                                                  (* step 4 *)
  | [] => py "c_" ++ s
  | c0 :: _ => if ascii_isdigit c0 then py "c_" ++ s else s
  end.
End SpecWords.

(** The last clause of the uniqueness rule as the specification words it:
    when two labels have the same base, the first label of that base keeps
    the unsuffixed form. *)
Definition first_occurrence_keeps_base `{UnicodeData} : Prop :=
  ∀ (cols out : list str) (k k2 : nat) (c c2 : str),
    returns cols out →
    cols !! k = Some c →
    cols !! k2 = Some c2 → (k < k2)%nat → candidate c2 = candidate c →
    (∀ k' c', (k' < k)%nat → cols !! k' = Some c' → candidate c' ≠ candidate c) →
    out !! k = Some (candidate c).

(** Neighbouring runs carry different tags. *)
Fixpoint tags_alternate (l : list (bool * str)) : Prop :=
  match l with
  | br :: (br' :: _) as t => fst br ≠ fst br' ∧ tags_alternate t
  | _ => True
  end.

(** A NormalizedIdentifier: non-empty, only lower-case ASCII letters, digits
    and underscore, not starting with a digit. *)
Definition valid_identifier (s : str) : bool :=
  match s with
  | [] => false
  | c0 :: _ => negb (ascii_isdigit c0) && forallb in_word_class s
  end.

(** The whole of [s] matches [[a-z][a-z0-9_]*]. *)
Definition matches_ident_regex (s : str) : bool :=
  match s with
  | [] => false
  | c0 :: t => (97 <=? c0) && (c0 <=? 122) && forallb in_word_class t
  end.

(** ** Exceptions *)

Inductive requests_error :=
  | ConnectionError | Timeout | TooManyRedirects | InvalidURL | OtherRequestError.

Inductive exn :=
  | RequestException (e : requests_error)
  | HTTPError (status : Z)
  | FileNotFoundError
  | ValueError
  | GoogleAPIError
  | KeyboardInterrupt
  | SystemExit.

(** [isinstance(e, Exception)]: the last two derive from [BaseException]
    only. *)
Definition is_Exception (e : exn) : bool :=
  match e with
  | KeyboardInterrupt | SystemExit => false
  | _ => true
  end.

Inductive result (A : Type) :=
  | Ok (a : A)
  | Raise (e : exn)
  | Diverge.
Arguments Ok {A} a.
Arguments Raise {A} e.
Arguments Diverge {A}.

#[global] Instance result_bind : MBind result := λ A B k r,
  match r with
  | Ok a => k a
  | Raise e => Raise e
  | Diverge => Diverge
  end.

(** [try: body / except cls: handler] *)
Definition try_except {A} (body : result A) (cls : exn → bool) (handler : result A)
  : result A :=
  match body with
  | Raise e => if cls e then handler else Raise e
  | r => r
  end.

(** ** [check_file_exists] *)

Record Response := { status_code : Z }.

(** What [requests.head(url, allow_redirects=True, timeout=20)] can do: hand
    back a response, or fail with one of the library's errors. *)
Inductive probe_outcome :=
  | Responded (r : Response)
  | Failed (e : requests_error).

Definition requests_head (o : probe_outcome) : result Response :=
  match o with
  | Responded r => Ok r
  | Failed e => Raise (RequestException e)
  end.

Definition check_file_exists (o : probe_outcome) : result bool :=
  try_except
    (r ← requests_head o;
     Ok (status_code r =? 200)%Z)
    is_Exception
    (Ok false).

(** ** [load_parquet_to_bigquery] *)

Record DataFrame (cell : Type) := {
  columns : list str;
  rows : list (list cell)
}.
Arguments columns {cell} d.
Arguments rows {cell} d.

Inductive WriteDisposition := WRITE_TRUNCATE | WRITE_APPEND | WRITE_EMPTY.

(** [sep.join(l)] *)
Fixpoint join (sep : str) (l : list str) : str :=
  match l with
  | [] => []
  | [x] => x
  | x :: t => x ++ sep ++ join sep t
  end.

Section LoadStep.
Context {U : UnicodeData} {cell : Type}.

(** [pd.read_parquet(path)] on a file system mapping paths to tables. *)
Definition read_parquet (fs : gmap string (DataFrame cell)) (path : string)
  : result (DataFrame cell) :=
  match fs !! path with
  | Some df => Ok df
  | None => Raise FileNotFoundError
  end.

(** [df.columns = new]: pandas refuses a list of another length. *)
Definition set_columns (df : DataFrame cell) (new : list str)
  : result (DataFrame cell) :=
  if decide (length new = length (columns df))
  then Ok {| columns := new; rows := rows df |}
  else Raise ValueError.

(** The warehouse client, [client.load_table_from_dataframe(df, table_id,
    job_config)] followed by [job.result()], after the service's
    documentation of the three write dispositions: truncate overwrites the
    table, append adds rows to a table of the same schema, empty writes only
    where no data is present.  Transport and quota failures of the service
    are not part of this model. *)
Definition load_table_from_dataframe (wh : gmap string (DataFrame cell))
    (df : DataFrame cell) (table_id : string) (wd : WriteDisposition)
  : result (gmap string (DataFrame cell)) :=
  match wd, wh !! table_id with
  | WRITE_TRUNCATE, _ => Ok (<[table_id := df]> wh)
  | WRITE_APPEND, Some t =>
      if decide (columns t = columns df)
      then Ok (<[table_id := {| columns := columns t; rows := rows t ++ rows df |}]> wh)
      else Raise GoogleAPIError
  | WRITE_EMPTY, Some t =>
      match rows t with
      | [] => Ok (<[table_id := df]> wh)
      | _ => Raise GoogleAPIError
      end
  | _, None => Ok (<[table_id := df]> wh)
  end.

(** The line printed when a column was renamed. *)
Definition renames_line (original new : list str) : str :=
  py "Column renames: " ++
  join (py "; ")
    (map (λ on : str * str, fst on ++ py "->" ++ snd on)
         (filter (λ on : str * str, fst on ≠ snd on) (zip original new))).

(** Lines 83-104.  The state is the warehouse and the lines printed. *)
Definition load_parquet_to_bigquery (fuel : nat)
    (fs wh : gmap string (DataFrame cell)) (parquet_path table_id : string)
  : result (gmap string (DataFrame cell) * list str) :=
  df ← read_parquet fs parquet_path;
  let original := columns df in
  new ← match _sanitize_columns fuel (columns df) with
        | Some new => Ok new
        | None => Diverge
        end;
  df ← set_columns df new;
  let stdout :=
    if decide (original ≠ columns df)
    then [renames_line original (columns df)] else [] in
  wh' ← load_table_from_dataframe wh df table_id WRITE_TRUNCATE;
  Ok (wh', stdout).
End LoadStep.

(** ** Names that need no change

    A name is clean when it is a valid identifier that neither starts nor
    ends with an underscore and has no two underscores in a row, that is, it
    matches [[a-z][a-z0-9]*(_[a-z0-9]+)*]. *)

Fixpoint no_double_underscore (s : str) : bool :=
  match s with
  | c1 :: (c2 :: _) as t =>
      negb (is_underscore c1 && is_underscore c2) && no_double_underscore t
  | _ => true
  end.

Definition ends_clean (s : str) : bool :=
  match head s, last s with
  | Some a, Some b => negb (is_underscore a) && negb (is_underscore b)
  | _, _ => false
  end.

Definition clean (s : str) : bool :=
  valid_identifier s && ends_clean s && no_double_underscore s.

(** ** [csv_url_to_parquet] *)

(** [os.path.join(a, b)] on POSIX: an absolute [b] replaces [a]; a separator
    is put between the two unless [a] is empty or already ends with one. *)
Definition starts_with_sep (s : string) : bool :=
  match s with
  | String c _ => Ascii.eqb c "/"
  | EmptyString => false
  end.

Fixpoint ends_with_sep (s : string) : bool :=
  match s with
  | EmptyString => false
  | String c EmptyString => Ascii.eqb c "/"
  | String _ t => ends_with_sep t
  end.

Definition path_join (a b : string) : string :=
  if starts_with_sep b then b
  else if String.eqb a EmptyString || ends_with_sep a then a +:+ b
  else a +:+ "/" +:+ b.

(** What [requests.get(url, timeout=60)] can do: hand back a response with
    its body text, or fail with one of the library's errors. *)
Inductive get_outcome :=
  | Fetched (r : Response) (text : str)
  | FetchFailed (e : requests_error).

Definition requests_get (web : string → get_outcome) (url : string)
  : result (Response * str) :=
  match web url with
  | Fetched r text => Ok (r, text)
  | FetchFailed e => Raise (RequestException e)
  end.

(** [r.raise_for_status()]: client errors (4xx) and server errors (5xx)
    raise, every other status passes. *)
Definition raise_for_status (r : Response) : result unit :=
  if ((400 <=? status_code r) && (status_code r <? 600))%Z
  then Raise (HTTPError (status_code r))
  else Ok ().

Section BuildStep.
Context {cell : Type}.

(** [pd.read_csv(StringIO(text))], the parser of the dataframe library. *)
Variable read_csv : str → result (DataFrame cell).

(** Lines 66-80.  [makedirs] is the outcome of [os.makedirs(out_dir,
    exist_ok=True)] (directories are not part of the modelled file system),
    [web] tells what a GET of each URL does.  The result is what the call
    returns or raises, and the files it leaves: the table is written in the
    last step, over whatever the path held. *)
Definition csv_url_to_parquet (makedirs : result unit) (web : string → get_outcome)
    (fs : gmap string (DataFrame cell)) (url out_dir parquet_name : string)
  : result string * gmap string (DataFrame cell) :=
  match (_ ← makedirs;
         rt ← requests_get web url;
         _ ← raise_for_status (fst rt);
         read_csv (snd rt)) with
  | Ok df =>
      let out_path := path_join out_dir parquet_name in
      (Ok out_path, <[out_path := df]> fs)
  | Raise e => (Raise e, fs)
  | Diverge => (Diverge, fs)
  end.
End BuildStep.

(** ** The DAG *)

Definition BASE_URL : string :=
  "https://github.com/AarthiHonguthi/ad-analytics/raw/main/dbt/seeds/imdb_movie_dataset".

Definition FAKE_GCS_ROOT : string := "/opt/airflow/fake_gcs".

Definition GENRES : list string :=
  [ "action"; "adventure"; "animation"; "biography";
    "crime"; "family"; "fantasy"; "film-noir";
    "history"; "horror"; "mystery"; "romance";
    "scifi"; "sports"; "thriller"; "war" ]%string.

(** The constants read from the environment when the module is loaded. *)
Record Config := {
  GCP_PROJECT_ID : string;
  BIGQUERY_DATASET : string;
  ENABLE_BQ_LOAD : bool
}.

(** [os.environ.get(key, default)] *)
Definition environ_get (environ : gmap string string) (key default : string) : string :=
  match environ !! key with
  | Some v => v
  | None => default
  end.

(** Lines 49-53. *)
Definition config_of_environ `{UnicodeData} (environ : gmap string string) : Config :=
  {| GCP_PROJECT_ID := environ_get environ "GCP_PROJECT_ID" EmptyString;
     BIGQUERY_DATASET := environ_get environ "BIGQUERY_DATASET" "imdb_dataset";
     ENABLE_BQ_LOAD :=
       bool_decide (lower (py (environ_get environ "ENABLE_BQ_LOAD" "false"))
                    = py "true") |}.

Inductive operator := ShortCircuitOperator | PythonOperator.

(** [python_callable] together with its [op_kwargs]. *)
Inductive python_callable :=
  | call_check_file_exists (url : string)
  | call_csv_url_to_parquet (url out_dir parquet_name : string)
  | call_load_parquet_to_bigquery (parquet_path table_id : string).

Record Task := {
  task_id : string;
  task_operator : operator;
  task_callable : python_callable
}.

(** Lines 125-161, one pass of [for genre in GENRES]: the tasks created, in
    order, and the edges that [>>] adds between their ids. *)
Definition genre_tasks (cfg : Config) (genre : string) : list Task :=
  let csv_url := BASE_URL +:+ "/" +:+ genre +:+ ".csv" in
  let out_dir := FAKE_GCS_ROOT +:+ "/" +:+ genre in
  let parquet_name := genre +:+ ".parquet" in
  let parquet_path := out_dir +:+ "/" +:+ parquet_name in
  let bq_table_id :=
    GCP_PROJECT_ID cfg +:+ "." +:+ BIGQUERY_DATASET cfg +:+ "." +:+ genre in
  let check_task :=
    {| task_id := "check_" +:+ genre +:+ "_exists";
       task_operator := ShortCircuitOperator;
       task_callable := call_check_file_exists csv_url |} in
  let build_parquet_task :=
    {| task_id := "build_" +:+ genre +:+ "_parquet";
       task_operator := PythonOperator;
       task_callable := call_csv_url_to_parquet csv_url out_dir parquet_name |} in
  if ENABLE_BQ_LOAD cfg then
    let load_bq_task :=
      {| task_id := "load_" +:+ genre +:+ "_parquet_to_bigquery";
         task_operator := PythonOperator;
         task_callable := call_load_parquet_to_bigquery parquet_path bq_table_id |} in
    [check_task; build_parquet_task; load_bq_task]
  else [check_task; build_parquet_task].

Definition genre_edges (cfg : Config) (genre : string) : list (string * string) :=
  let check_id := "check_" +:+ genre +:+ "_exists" in
  let build_id := "build_" +:+ genre +:+ "_parquet" in
  if ENABLE_BQ_LOAD cfg then
    [(check_id, build_id); (build_id, "load_" +:+ genre +:+ "_parquet_to_bigquery")]
  else [(check_id, build_id)].

Definition dag_tasks (cfg : Config) (genres : list string) : list Task :=
  concat (map (genre_tasks cfg) genres).

Definition dag_edges (cfg : Config) (genres : list string) : list (string * string) :=
  concat (map (genre_edges cfg) genres).

(** A genre that yields well-formed paths: not empty, no [/] at either end. *)
Definition plain_genre (genre : string) : bool :=
  negb (String.eqb genre EmptyString)
  && negb (starts_with_sep genre) && negb (ends_with_sep genre).

(** * Properties *)

(** ** Characters and classes *)

Ltac cmp_cases :=
  repeat match goal with
    | |- context [N.leb ?a ?b] => destruct (N.leb_spec a b)
    | |- context [N.ltb ?a ?b] => destruct (N.ltb_spec a b)
    | |- context [N.eqb ?a ?b] => destruct (N.eqb_spec a b)
    | H : context [N.leb ?a ?b] |- _ => destruct (N.leb_spec a b)
    | H : context [N.ltb ?a ?b] |- _ => destruct (N.ltb_spec a b)
    | H : context [N.eqb ?a ?b] |- _ => destruct (N.eqb_spec a b)
    end;
  simpl in *; try reflexivity; try discriminate; try lia.

Lemma class_not_word c : class_matches not_word c = negb (in_word_class c).
Proof. unfold class_matches, in_word_class, ascii_isdigit; simpl. cmp_cases. Qed.

Lemma class_underscore c : class_matches underscore c = is_underscore c.
Proof. unfold class_matches, is_underscore; simpl. cmp_cases. Qed.

Lemma in_word_class_ascii c : in_word_class c = true → (c <? 128) = true.
Proof. unfold in_word_class, ascii_isdigit. cmp_cases. Qed.

Lemma digit_in_word_class c : ascii_isdigit c = true → in_word_class c = true.
Proof. unfold in_word_class. intros ->. by rewrite orb_true_r. Qed.

Lemma isdigit_word `{UnicodeData} c :
  in_word_class c = true → isdigit c = ascii_isdigit c.
Proof. intros Hc. unfold isdigit. by rewrite (in_word_class_ascii c Hc). Qed.

Lemma in_py_underscore x : x ∈ py "_" → x = 95.
Proof. cbn. intros Hx. by apply list_elem_of_singleton in Hx. Qed.

(** ** Stripping *)

Lemma lstrip_where_ext p q s :
  (∀ c, p c = q c) → lstrip_where p s = lstrip_where q s.
Proof. intros E. induction s as [|c t IH]; simpl; [done|]. by rewrite E, IH. Qed.

Lemma strip_where_ext p q s :
  (∀ c, p c = q c) → strip_where p s = strip_where q s.
Proof.
  intros E. unfold strip_where, rstrip_where.
  by rewrite (lstrip_where_ext p q s E), (lstrip_where_ext p q _ E).
Qed.

Lemma lstrip_where_elem p s x : x ∈ lstrip_where p s → x ∈ s.
Proof.
  induction s as [|c t IH]; simpl; [done|].
  destruct (p c); [|done]. intros Hx. right. by apply IH.
Qed.

Lemma lstrip_where_head p s c r : lstrip_where p s = c :: r → p c = false.
Proof.
  induction s as [|d t IH]; simpl; [done|].
  destruct (p d) eqn:Hd; [done|]. by intros [= <- _].
Qed.

Lemma lstrip_where_snoc p l c :
  lstrip_where p (l ++ [c]) =
  match lstrip_where p l with
  | [] => if p c then [] else [c]
  | r => r ++ [c]
  end.
Proof.
  induction l as [|d t IH]; simpl; [done|].
  destruct (p d); [done|]. done.
Qed.

(** Stripping on the right keeps a first character that is not stripped. *)
Lemma rstrip_where_cons p c t :
  p c = false → ∃ r, rstrip_where p (c :: t) = c :: r.
Proof.
  intros Hc. unfold rstrip_where. rewrite reverse_cons, lstrip_where_snoc.
  destruct (lstrip_where p (reverse t)) as [|d r] eqn:E.
  - rewrite Hc. by exists [].
  - rewrite reverse_snoc. by eexists.
Qed.

Lemma strip_where_elem p s x : x ∈ strip_where p s → x ∈ s.
Proof.
  unfold strip_where, rstrip_where. rewrite elem_of_reverse.
  intros Hx%lstrip_where_elem. rewrite elem_of_reverse in Hx.
  by apply lstrip_where_elem in Hx.
Qed.

Lemma strip_where_head p s c r : strip_where p s = c :: r → p c = false.
Proof.
  unfold strip_where. destruct (lstrip_where p s) as [|d t] eqn:E.
  - by cbn.
  - apply lstrip_where_head in E.
    destruct (rstrip_where_cons p d t E) as [r' ->]. by intros [= <- _].
Qed.

(** ** Substitution *)

Lemma sub_scan_elem cl repl b s x :
  x ∈ sub_scan cl repl b s →
  x ∈ repl ∨ (x ∈ s ∧ class_matches cl x = false).
Proof.
  revert b. induction s as [|c t IH]; intros b; simpl.
  - by intros ?%elem_of_nil.
  - destruct (class_matches cl c) eqn:Hc.
    + rewrite elem_of_app. intros [Hx|Hx].
      * destruct b; [by apply elem_of_nil in Hx | by left].
      * destruct (IH _ Hx) as [?|[? ?]]; [by left|]. right. split; [by right|done].
    + rewrite elem_of_cons. intros [->|Hx].
      * right. split; [by left|done].
      * destruct (IH _ Hx) as [?|[? ?]]; [by left|]. right. split; [by right|done].
Qed.

(** [runs] splits the subject into non-empty pieces on which [p] is constant
    and which cannot be extended. *)
Lemma runs_concat p s : concat (map snd (runs p s)) = s.
Proof.
  induction s as [|c t IH]; simpl; [done|].
  destruct (runs p t) as [|[b r] rest]; simpl in *; [by rewrite <- IH|].
  destruct (Bool.eqb (p c) b); simpl; by rewrite <- IH.
Qed.

Lemma runs_tagged p s :
  Forall (λ br : bool * str, snd br ≠ [] ∧ Forall (λ c, p c = fst br) (snd br))
         (runs p s).
Proof.
  induction s as [|c t IH]; simpl; [constructor|].
  destruct (runs p t) as [|[b r] rest].
  - repeat constructor; done.
  - apply Forall_cons in IH as [[Hne Hr] Hrest]. simpl in *.
    destruct (Bool.eqb (p c) b) eqn:E.
    + apply Bool.eqb_prop in E. repeat constructor; done.
    + repeat constructor; done.
Qed.

Lemma runs_alternate p s : tags_alternate (runs p s).
Proof.
  induction s as [|c t IH]; simpl; [done|].
  destruct (runs p t) as [|[b r] rest]; [done|].
  destruct (Bool.eqb (p c) b) eqn:E.
  - destruct rest; [done|]. exact IH.
  - split; [|exact IH]. simpl. intros E'. by rewrite E', Bool.eqb_reflx in E.
Qed.

Lemma runs_ext p q s : (∀ c, p c = q c) → runs p s = runs q s.
Proof. intros E. induction s as [|c t IH]; simpl; [done|]. by rewrite IH, E. Qed.

(** The scanner agrees with the run-by-run reading of the substitution, both
    outside a match and when the subject is entered in the middle of one. *)
Lemma sub_scan_runs cl repl s :
  sub_scan cl repl false s = rewrite_runs repl (runs (class_matches cl) s) ∧
  sub_scan cl repl true s =
    rewrite_runs repl
      match runs (class_matches cl) s with
      | (true, _) :: rest => rest
      | l => l
      end.
Proof.
  induction s as [|c t [IH1 IH2]]; simpl; [done|].
  rewrite IH1, IH2.
  destruct (class_matches cl c) eqn:Hc;
    destruct (runs (class_matches cl) t) as [|[[] r] rest];
    unfold rewrite_runs; simpl; rewrite ?app_nil_r; try done.
Qed.

Lemma re_sub_plus_runs cl p s :
  (∀ c, class_matches cl c = p c) →
  re_sub_plus cl (py "_") s = replace_runs p s.
Proof.
  intros E. unfold re_sub_plus, replace_runs.
  rewrite (proj1 (sub_scan_runs _ _ _)).
  by rewrite (runs_ext _ _ _ E).
Qed.

(** ** The candidate of one label *)

Lemma forallb_of_Forall (f : N → bool) l :
  Forall (λ x, f x = true) l → forallb f l = true.
Proof. induction 1 as [|x l Hx _ IH]; simpl; [done|]. by rewrite Hx, IH. Qed.

Lemma Forall_of_forallb (f : N → bool) l :
  forallb f l = true → Forall (λ x, f x = true) l.
Proof.
  induction l as [|x l IH]; simpl; [constructor|].
  intros [? ?]%andb_true_iff. constructor; auto.
Qed.

Lemma strip_chars_underscore `{UnicodeData} s :
  strip_chars (py "_") s = strip_where is_underscore s.
Proof.
  apply strip_where_ext. intros c. unfold is_underscore.
  destruct (N.eqb_spec c 95) as [->|Hne].
  - apply bool_decide_eq_true_2. cbn. left.
  - apply bool_decide_eq_false_2. by intros ?%in_py_underscore.
Qed.

Section Candidate.
Context {U : UnicodeData}.

Lemma scrubbed_word c : Forall (λ x, in_word_class x = true) (scrubbed c).
Proof.
  apply Forall_forall. intros x Hx. unfold scrubbed in Hx.
  apply strip_where_elem in Hx.
  apply sub_scan_elem in Hx as [Hx|[Hx _]].
  { by apply in_py_underscore in Hx as ->. }
  apply sub_scan_elem in Hx as [Hx|[_ Hx]].
  { by apply in_py_underscore in Hx as ->. }
  rewrite class_not_word in Hx. by apply negb_false_iff in Hx.
Qed.

Lemma scrubbed_head c c0 r : scrubbed c = c0 :: r → c0 ≠ 95.
Proof.
  unfold scrubbed. rewrite strip_chars_underscore.
  intros E%strip_where_head. unfold is_underscore in E.
  by apply N.eqb_neq in E.
Qed.

Lemma candidate_scrubbed c :
  candidate c =
  match scrubbed c with
  | [] => py "c_"
  | c0 :: r => if ascii_isdigit c0 then py "c_" ++ c0 :: r else c0 :: r
  end.
Proof.
  unfold candidate.
  pose proof (scrubbed_word c) as Hw.
  destruct (scrubbed c) as [|c0 r]; [done|].
  apply Forall_cons in Hw as [Hc0 _]. by rewrite (isdigit_word c0 Hc0).
Qed.

Lemma candidate_valid c : valid_identifier (candidate c) = true.
Proof.
  rewrite candidate_scrubbed.
  pose proof (scrubbed_word c) as Hw.
  destruct (scrubbed c) as [|c0 r]; [done|].
  apply forallb_of_Forall in Hw.
  destruct (ascii_isdigit c0) eqn:Hd.
  - cbn [py list_ascii_of_string map app valid_identifier]. exact Hw.
  - unfold valid_identifier. by rewrite Hd.
Qed.

Lemma candidate_spec c : candidate c = spec_candidate c.
Proof.
  rewrite candidate_scrubbed. unfold spec_candidate.
  rewrite <- (re_sub_plus_runs not_word (λ c, negb (in_word_class c)))
    by apply class_not_word.
  rewrite <- (re_sub_plus_runs underscore is_underscore)
    by apply class_underscore.
  rewrite <- strip_chars_underscore. fold (scrubbed c).
  by destruct (scrubbed c).
Qed.
End Candidate.

(** ** The counter and the formatted name *)

Lemma uint_digits_inj d1 d2 : uint_digits d1 = uint_digits d2 → d1 = d2.
Proof.
  revert d2. induction d1 as [|d1 IH|d1 IH|d1 IH|d1 IH|d1 IH|d1 IH|d1 IH|d1 IH|d1 IH|d1 IH];
    intros [|d2|d2|d2|d2|d2|d2|d2|d2|d2|d2]; simpl; intros E;
    try discriminate E; try reflexivity;
    injection E as E; f_equal; by apply IH.
Qed.

Lemma decimal_inj i j : decimal i = decimal j → i = j.
Proof.
  intros E%uint_digits_inj.
  by rewrite <- (Unsigned.of_to i), <- (Unsigned.of_to j), E.
Qed.

Lemma uint_digits_digits d : Forall (λ x, ascii_isdigit x = true) (uint_digits d).
Proof. induction d; simpl; constructor; done. Qed.

Lemma fstring_inj base i j : fstring base i = fstring base j → i = j.
Proof.
  unfold fstring. intros E%app_inv_head. injection E as E. by apply decimal_inj.
Qed.

Lemma fstring_ne_base base i : base ≠ fstring base i.
Proof.
  intros E. apply (f_equal length) in E. unfold fstring in E.
  rewrite !length_app in E. simpl in E. lia.
Qed.

Lemma fstring_valid base i :
  valid_identifier base = true → valid_identifier (fstring base i) = true.
Proof.
  unfold valid_identifier, fstring. destruct base as [|c0 r]; [done|].
  simpl. intros [Hd [Hc0 Hr]%andb_true_iff]%andb_true_iff.
  rewrite Hd, Hc0. simpl. apply forallb_of_Forall, Forall_app. split.
  - by apply Forall_of_forallb.
  - constructor; [done|].
    eapply Forall_impl; [apply uint_digits_digits|]. apply digit_in_word_class.
Qed.

(** ** The uniqueness loop *)

Section Loop.
Context {U : UnicodeData}.

Lemma while_not_used fuel used base i s r :
  while_in_used fuel used base i s = Some r → r ∉ used.
Proof.
  revert i s. induction fuel as [|f IH]; intros i s; simpl; [done|].
  destruct (decide (s ∈ used)); [apply IH|]. by intros [= <-].
Qed.

Lemma while_mono fuel fuel' used base i s r :
  (fuel ≤ fuel')%nat →
  while_in_used fuel used base i s = Some r →
  while_in_used fuel' used base i s = Some r.
Proof.
  revert fuel' i s. induction fuel as [|f IH]; intros fuel' i s Hle; simpl; [done|].
  destruct fuel' as [|f']; [lia|]. simpl.
  destruct (decide (s ∈ used)); [|done]. apply IH. lia.
Qed.

(** The loop keeps [s] when it is free, and otherwise returns the first free
    name among [base_(i+1)], [base_(i+2)], ... *)
Lemma while_result fuel used base i s r :
  while_in_used fuel used base i s = Some r →
  ((s ∉ used) ∧ r = s) ∨
  (s ∈ used ∧ ∃ j, i < j ∧ r = fstring base j ∧ (r ∉ used) ∧
     ∀ k, i < k → k < j → fstring base k ∈ used).
Proof.
  revert i s. induction fuel as [|f IH]; intros i s; simpl; [done|].
  destruct (decide (s ∈ used)) as [Hin|Hout].
  - intros Hr. right. split; [done|].
    destruct (IH _ _ Hr) as [[Hfree ->]|[Hused (j & Hj & -> & Hfree & Hbelow)]].
    + exists (i + 1). repeat split; [lia|done|]. intros k ? ?. lia.
    + exists j. repeat split; [lia|done|].
      intros k Hk1 Hk2. destruct (decide (k = i + 1)) as [->|]; [done|].
      apply Hbelow; lia.
  - intros [= <-]. by left.
Qed.

Lemma while_none fuel used base i s :
  while_in_used fuel used base i s = None →
  ∀ x, x ∈ tried fuel base i s → x ∈ used.
Proof.
  revert i s. induction fuel as [|f IH]; intros i s; simpl.
  - by intros _ x ?%elem_of_nil.
  - destruct (decide (s ∈ used)); [|done].
    intros Hn x [->|Hx]%elem_of_cons; [done|]. by eapply IH.
Qed.

Lemma length_tried fuel base i s : length (tried fuel base i s) = fuel.
Proof. revert i s. induction fuel as [|f IH]; intros i s; simpl; [done|]. by rewrite IH. Qed.

Lemma tried_elem fuel base i s x :
  x ∈ tried fuel base i s → x = s ∨ ∃ j, i < j ∧ x = fstring base j.
Proof.
  revert i s. induction fuel as [|f IH]; intros i s; simpl.
  - by intros ?%elem_of_nil.
  - intros [->|Hx]%elem_of_cons; [by left|]. right.
    destruct (IH _ _ Hx) as [->|(j & Hj & ->)].
    + exists (i + 1). split; [lia|done].
    + exists j. split; [lia|done].
Qed.

Lemma tried_NoDup fuel base i s :
  (∀ j, i < j → s ≠ fstring base j) → NoDup (tried fuel base i s).
Proof.
  revert i s. induction fuel as [|f IH]; intros i s Hs; simpl; [constructor|].
  apply NoDup_cons. split.
  - intros [E|(j & Hj & E)]%tried_elem.
    + apply (Hs (i + 1)); [lia|done].
    + apply (Hs j); [lia|done].
  - apply IH. intros j Hj E%fstring_inj. lia.
Qed.

(** The loop entered at [s = base], [i = 1] ends within [size used + 1]
    evaluations of its condition: the names it looks at are pairwise
    different, and all but the last are in [used]. *)
Lemma while_total fuel used base :
  (size used < fuel)%nat → is_Some (while_in_used fuel used base 1 base).
Proof.
  intros Hlt.
  destruct (while_in_used fuel used base 1 base) as [r|] eqn:E; [by eexists|].
  exfalso.
  pose proof (while_none _ _ _ _ _ E) as Hsub.
  assert (NoDup (tried fuel base 1 base)) as Hnd.
  { apply tried_NoDup. intros j _. apply fstring_ne_base. }
  assert (length (tried fuel base 1 base) ≤ size used)%nat as Hle.
  { rewrite <- (size_list_to_set (C:=gset str)) by done.
    apply subseteq_size. intros x Hx%elem_of_list_to_set. by apply Hsub. }
  rewrite length_tried in Hle. lia.
Qed.

Lemma while_valid fuel used c i r :
  while_in_used fuel used (candidate c) i (candidate c) = Some r →
  valid_identifier r = true.
Proof.
  intros Hr.
  destruct (while_result _ _ _ _ _ _ Hr) as [[_ ->]|[_ (j & _ & -> & _)]].
  - apply candidate_valid.
  - apply fstring_valid, candidate_valid.
Qed.
End Loop.

(** ** The loop over the labels *)

Section ForCols.
Context {U : UnicodeData}.

(** [new] is only ever appended to. *)
Lemma for_cols_acc fuel cols new used :
  for_cols fuel cols new used = (new ++.) <$> for_cols fuel cols [] used.
Proof.
  revert new used. induction cols as [|c rest IH]; intros new used; simpl.
  - by rewrite app_nil_r.
  - destruct (while_in_used fuel used (candidate c) 1 (candidate c)) as [s'|];
      [|done].
    rewrite (IH (new ++ [s'])), (IH [s']).
    destruct (for_cols fuel rest [] _); simpl; [|done]. by rewrite <- app_assoc.
Qed.

Lemma for_cols_cons fuel c rest used out :
  for_cols fuel (c :: rest) [] used = Some out ↔
  ∃ s' tl,
    while_in_used fuel used (candidate c) 1 (candidate c) = Some s' ∧
    for_cols fuel rest [] ({[ s' ]} ∪ used) = Some tl ∧
    out = s' :: tl.
Proof.
  simpl.
  destruct (while_in_used fuel used (candidate c) 1 (candidate c)) as [s'|].
  - rewrite for_cols_acc.
    destruct (for_cols fuel rest [] ({[ s' ]} ∪ used)) as [tl|] eqn:E; simpl; split.
    + intros [= <-]. by exists s', tl.
    + intros (? & ? & [= <-] & E' & ->). rewrite E in E'. by injection E' as <-.
    + done.
    + intros (? & ? & [= <-] & E' & _). by rewrite E in E'.
  - split; [done|]. by intros (? & ? & ? & _).
Qed.

Lemma for_cols_length fuel cols used out :
  for_cols fuel cols [] used = Some out → length out = length cols.
Proof.
  revert used out. induction cols as [|c rest IH]; intros used out.
  - by intros [= <-].
  - intros (s' & tl & _ & Htl & ->)%for_cols_cons. simpl. f_equal. by eapply IH.
Qed.

Lemma for_cols_fresh fuel cols used out :
  for_cols fuel cols [] used = Some out →
  NoDup out ∧ ∀ x, x ∈ out → x ∉ used.
Proof.
  revert used out. induction cols as [|c rest IH]; intros used out.
  - intros [= <-]. split; [constructor|]. by intros x ?%elem_of_nil.
  - intros (s' & tl & Hs' & Htl & ->)%for_cols_cons.
    apply while_not_used in Hs'. destruct (IH _ _ Htl) as [Hnd Hfresh]. split.
    + apply NoDup_cons. split; [|done].
      intros Hin. apply (Hfresh _ Hin), elem_of_union. left. by apply elem_of_singleton.
    + intros x [->|Hx]%elem_of_cons; [done|].
      intros Hu. apply (Hfresh _ Hx), elem_of_union. by right.
Qed.

Lemma for_cols_valid fuel cols used out :
  for_cols fuel cols [] used = Some out →
  Forall (λ x, valid_identifier x = true) out.
Proof.
  revert used out. induction cols as [|c rest IH]; intros used out.
  - intros [= <-]. constructor.
  - intros (s' & tl & Hs' & Htl & ->)%for_cols_cons. constructor.
    + by eapply while_valid.
    + by eapply IH.
Qed.

Lemma for_cols_mono fuel fuel' cols used out :
  (fuel ≤ fuel')%nat →
  for_cols fuel cols [] used = Some out →
  for_cols fuel' cols [] used = Some out.
Proof.
  intros Hle. revert used out. induction cols as [|c rest IH]; intros used out.
  - done.
  - intros (s' & tl & Hs' & Htl & ->)%for_cols_cons.
    apply for_cols_cons. exists s', tl. split; [|split; [|done]].
    + by eapply while_mono.
    + by apply IH.
Qed.

Lemma for_cols_total fuel cols used :
  (size used + length cols < fuel)%nat →
  is_Some (for_cols fuel cols [] used).
Proof.
  revert used. induction cols as [|c rest IH]; intros used Hlt.
  - by eexists.
  - simpl in Hlt.
    destruct (while_total fuel used (candidate c)) as [s' Hs']; [lia|].
    destruct (IH ({[ s' ]} ∪ used)) as [tl Htl].
    { apply while_not_used in Hs'.
      rewrite size_union by set_solver. rewrite size_singleton. lia. }
    exists (s' :: tl). apply for_cols_cons. by exists s', tl.
Qed.

(** Processing [L ++ M] is processing [L] and then [M] with the names given
    to [L] added to [used]. *)
Lemma for_cols_app fuel L M used out :
  for_cols fuel (L ++ M) [] used = Some out →
  ∃ o1 o2,
    for_cols fuel L [] used = Some o1 ∧
    for_cols fuel M [] (list_to_set o1 ∪ used) = Some o2 ∧
    out = o1 ++ o2.
Proof.
  revert used out. induction L as [|c L IH]; intros used out; simpl app.
  - intros Hout. exists [], out. split; [done|]. split; [|done].
    by rewrite list_to_set_nil, (left_id_L ∅ (∪)).
  - intros (s' & tl & Hs' & Htl & ->)%for_cols_cons.
    destruct (IH _ _ Htl) as (o1 & o2 & Ho1 & Ho2 & ->).
    exists (s' :: o1), o2. split; [|split; [|done]].
    + apply for_cols_cons. by exists s', o1.
    + rewrite list_to_set_cons.
      by rewrite (comm_L (∪) {[s']} (list_to_set o1)), <- (assoc_L (∪)).
Qed.

(** The name at position [k] is what the uniqueness loop returns for the
    candidate of the label at position [k], [used] holding the names of the
    positions before [k]. *)
Lemma for_cols_lookup fuel cols out k c :
  for_cols fuel cols [] ∅ = Some out →
  cols !! k = Some c →
  ∃ r, out !! k = Some r ∧
    while_in_used fuel (list_to_set (take k out)) (candidate c) 1 (candidate c)
    = Some r.
Proof.
  intros Hout Hk.
  rewrite <- (take_drop_middle cols k c Hk) in Hout.
  apply for_cols_app in Hout as (o1 & o2 & Ho1 & Ho2 & ->).
  apply for_cols_cons in Ho2 as (s' & tl & Hs' & _ & ->).
  apply for_cols_length in Ho1.
  assert (length o1 = k) as Hlen.
  { rewrite Ho1, length_take. apply lookup_lt_Some in Hk. lia. }
  exists s'. split.
  - rewrite lookup_app_r by lia. by replace (k - length o1)%nat with 0%nat by lia.
  - rewrite take_app_length' by done.
    by rewrite (right_id_L ∅ (∪)) in Hs'.
Qed.
(** Two runs on the same labels agree. *)
Lemma returns_functional cols o1 o2 :
  returns cols o1 → returns cols o2 → o1 = o2.
Proof.
  intros [f1 H1] [f2 H2]. unfold _sanitize_columns in *.
  apply (for_cols_mono f1 (f1 `max` f2)) in H1; [|lia].
  apply (for_cols_mono f2 (f1 `max` f2)) in H2; [|lia].
  congruence.
Qed.
End ForCols.

(** * The claims *)

(** C1. For every list of labels, the names returned by [_sanitize_columns]
    are pairwise distinct. *)
Theorem sanitize_columns_distinct (U : UnicodeData) (cols out : list str) :
  returns cols out → NoDup out.
Proof. intros [fuel Hout]. by apply for_cols_fresh in Hout as [? _]. Qed.

Lemma sanitize_columns_distinct_witness :
  returns (U:=ascii_only) [py "a"; py "A"; py "a "] [py "a"; py "a_2"; py "a_3"]
  ∧ NoDup [py "a"; py "a_2"; py "a_3"].
Proof.
  assert (returns (U:=ascii_only) [py "a"; py "A"; py "a "]
            [py "a"; py "a_2"; py "a_3"]) as H.
  { exists 3%nat. vm_compute. reflexivity. }
  split; [exact H|]. exact (sanitize_columns_distinct ascii_only _ _ H).
Defined.

(** C2. The output has as many names as there are labels, and the name at
    each position is the one the uniqueness loop produces for the label at
    that position, given the names at the positions before it. *)
Theorem sanitize_columns_positions (U : UnicodeData) (cols out : list str) :
  returns cols out →
  length out = length cols ∧
  ∀ k c, cols !! k = Some c →
    ∃ fuel r, out !! k = Some r ∧
      while_in_used fuel (list_to_set (take k out)) (candidate c) 1 (candidate c)
      = Some r.
Proof.
  intros [fuel Hout]. split.
  - by eapply for_cols_length.
  - intros k c Hk. exists fuel. by eapply for_cols_lookup.
Qed.

Lemma sanitize_columns_positions_witness :
  returns (U:=ascii_only) [py "B"; py "a"; py "b"] [py "b"; py "a"; py "b_2"]
  ∧ length [py "b"; py "a"; py "b_2"] = length [py "B"; py "a"; py "b"].
Proof.
  assert (returns (U:=ascii_only) [py "B"; py "a"; py "b"]
            [py "b"; py "a"; py "b_2"]) as H.
  { exists 2%nat. vm_compute. reflexivity. }
  split; [exact H|]. exact (proj1 (sanitize_columns_positions ascii_only _ _ H)).
Defined.

(** C3. [_sanitize_columns] returns on every list of labels, and every name
    it returns is a valid identifier: not empty, made of lower-case ASCII
    letters, digits and underscore, and not starting with a digit.  For the
    one empty label the name is not empty and starts with [c_]. *)
Theorem sanitize_columns_total_valid (U : UnicodeData) :
  (∀ cols : list str, ∃ out,
     _sanitize_columns (S (length cols)) cols = Some out ∧
     Forall (λ x, valid_identifier x = true) out) ∧
  (∃ r, _sanitize_columns 1 [[]] = Some [r] ∧ r ≠ [] ∧ py "c_" `prefix_of` r).
Proof.
  split.
  - intros cols.
    destruct (for_cols_total (S (length cols)) cols ∅) as [out Hout].
    { rewrite size_empty. lia. }
    exists out. split; [done|]. by eapply for_cols_valid.
  - exists (py "c_"). split; [by vm_compute|]. split; [done|]. by exists [].
Qed.

(** C9. Two runs of [_sanitize_columns] on the same labels return the same
    list. *)
Theorem sanitize_columns_deterministic (U : UnicodeData) (cols o1 o2 : list str) :
  returns cols o1 → returns cols o2 → o1 = o2.
Proof.
  intros [f1 H1] [f2 H2]. unfold _sanitize_columns in *.
  apply (for_cols_mono f1 (f1 `max` f2)) in H1; [|lia].
  apply (for_cols_mono f2 (f1 `max` f2)) in H2; [|lia].
  congruence.
Qed.

Lemma sanitize_columns_deterministic_witness :
  returns (U:=ascii_only) [py "x y"; py "x-y"] [py "x_y"; py "x_y_2"]
  ∧ returns (U:=ascii_only) [py "x y"; py "x-y"] [py "x_y"; py "x_y_2"]
  ∧ [py "x_y"; py "x_y_2"] = [py "x_y"; py "x_y_2"].
Proof.
  assert (returns (U:=ascii_only) [py "x y"; py "x-y"] [py "x_y"; py "x_y_2"]) as H1.
  { exists 2%nat. vm_compute. reflexivity. }
  assert (returns (U:=ascii_only) [py "x y"; py "x-y"] [py "x_y"; py "x_y_2"]) as H2.
  { exists 5%nat. vm_compute. reflexivity. }
  split; [exact H1|]. split; [exact H2|].
  exact (sanitize_columns_deterministic ascii_only _ _ _ H1 H2).
Defined.

(** C10. The names given to a list of labels are the first names given to any
    longer list that starts with it: a name, once chosen, is not revised for
    the labels that follow. *)
Theorem sanitize_columns_prefix_stable (U : UnicodeData) (L M out : list str) :
  returns (L ++ M) out → returns L (take (length L) out).
Proof.
  intros [fuel Hout]. exists fuel.
  apply for_cols_app in Hout as (o1 & o2 & Ho1 & _ & ->).
  rewrite take_app_length'; [done|]. symmetry. by eapply for_cols_length.
Qed.

Lemma sanitize_columns_prefix_stable_witness :
  returns (U:=ascii_only) ([py "a"; py "a"] ++ [py "a_2"]) [py "a"; py "a_2"; py "a_2_2"]
  ∧ returns (U:=ascii_only) [py "a"; py "a"] [py "a"; py "a_2"].
Proof.
  assert (returns (U:=ascii_only) ([py "a"; py "a"] ++ [py "a_2"])
            [py "a"; py "a_2"; py "a_2_2"]) as H.
  { exists 2%nat. vm_compute. reflexivity. }
  split; [exact H|].
  exact (sanitize_columns_prefix_stable ascii_only _ _ _ H).
Defined.

(** C4, as amended.  The name of the label at position [k] is settled against
    the names of the positions before [k] only ([used] is empty at position
    0).  A candidate not among them is kept; otherwise the name is the
    candidate followed by [_j], for the least [j] from 2 on that gives a name
    not among them.  A label whose candidate is also the candidate of an
    earlier label always finds it among them, and so receives a suffix. *)
Theorem uniqueness_resolution (U : UnicodeData) (cols out : list str) (k : nat) (c : str) :
  returns cols out →
  cols !! k = Some c →
  ∃ r, out !! k = Some r ∧
    (r ∉ (list_to_set (take k out) : gset str)) ∧
    (((candidate c ∉ (list_to_set (take k out) : gset str)) ∧ r = candidate c) ∨
     (candidate c ∈ (list_to_set (take k out) : gset str) ∧
      ∃ j, 2 ≤ j ∧ r = fstring (candidate c) j ∧
        ∀ j', 2 ≤ j' → j' < j →
          fstring (candidate c) j' ∈ (list_to_set (take k out) : gset str))) ∧
    ((∃ k' c', (k' < k)%nat ∧ cols !! k' = Some c' ∧ candidate c' = candidate c) →
     candidate c ∈ (list_to_set (take k out) : gset str)).
Proof.
  intros [fuel Hout] Hk.
  destruct (for_cols_lookup _ _ _ _ _ Hout Hk) as (r & Hr & Hloop).
  exists r. split; [done|]. split; [by eapply while_not_used|]. split.
  - destruct (while_result _ _ _ _ _ _ Hloop)
      as [[Hfree ->]|[Hused (j & Hj & -> & _ & Hbelow)]].
    + by left.
    + right. split; [done|]. exists j. split; [lia|]. split; [done|].
      intros j' ? ?. apply Hbelow; lia.
  - intros (k' & c' & Hlt & Hk' & Hc').
    destruct (for_cols_lookup _ _ _ _ _ Hout Hk') as (r' & Hr' & Hloop').
    rewrite Hc' in Hloop'. apply elem_of_list_to_set, elem_of_take.
    destruct (while_result _ _ _ _ _ _ Hloop') as [[_ ->]|[Hused _]].
    + by exists k'.
    + apply elem_of_list_to_set, elem_of_take in Hused as (i & Hi & ?).
      exists i. split; [done|lia].
Qed.

Lemma uniqueness_resolution_witness :
  returns (U:=ascii_only) [py "a"; py "b"; py "A"] [py "a"; py "b"; py "a_2"]
  ∧ [py "a"; py "b"; py "A"] !! 2%nat = Some (py "A")
  ∧ ∃ r, [py "a"; py "b"; py "a_2"] !! 2%nat = Some r.
Proof.
  assert (returns (U:=ascii_only) [py "a"; py "b"; py "A"]
            [py "a"; py "b"; py "a_2"]) as H.
  { exists 2%nat. vm_compute. reflexivity. }
  split; [exact H|]. split; [reflexivity|].
  destruct (uniqueness_resolution ascii_only _ _ 2%nat (py "A") H eq_refl)
    as (r & Hr & _).
  exists r. exact Hr.
Defined.

(** C4, the clause that fails: in [x, x, x_2, x_2] the third label is the
    first with candidate [x_2], yet it is named [x_2_2], because [x_2] was
    given to the second label. *)
Lemma first_occurrence_suffixed :
  _sanitize_columns (U:=ascii_only) 3 [py "x"; py "x"; py "x_2"; py "x_2"]
    = Some [py "x"; py "x_2"; py "x_2_2"; py "x_2_3"]
  ∧ candidate (U:=ascii_only) (py "x") = py "x"
  ∧ candidate (U:=ascii_only) (py "x_2") = py "x_2"
  ∧ ¬ first_occurrence_keeps_base (H:=ascii_only).
Proof.
  split; [by vm_compute|]. split; [by vm_compute|]. split; [by vm_compute|].
  intros Hclaim.
  specialize (Hclaim [py "x"; py "x"; py "x_2"; py "x_2"]
                [py "x"; py "x_2"; py "x_2_2"; py "x_2_3"]
                2%nat 3%nat (py "x_2") (py "x_2")).
  assert (Some (py "x_2_2") = Some (py "x_2")) as E; [|by vm_compute in E].
  apply Hclaim.
  - exists 3%nat. by vm_compute.
  - reflexivity.
  - reflexivity.
  - lia.
  - reflexivity.
  - intros [|[|k']] c' Hlt Hc'; [| |lia]; injection Hc' as <-; by vm_compute.
Qed.

(** C5. The candidate of a label is the label trimmed and lower-cased, with
    every maximal run of characters outside [[a-z0-9_]] replaced by one
    underscore, runs of underscores collapsed, underscores stripped from both
    ends, and [c_] put in front exactly when that is empty or starts with a
    digit.  [Gross(in $)] alone gives [gross_in], and [9lives] gives
    [c_9lives]. *)
Theorem candidate_follows_rules (U : UnicodeData) :
  (∀ c, candidate c = spec_candidate c) ∧
  returns [py "Gross(in $)"] [py "gross_in"] ∧
  returns [py "9lives"] [py "c_9lives"].
Proof.
  split; [apply candidate_spec|].
  split; exists 1%nat; by vm_compute.
Qed.

(** C6. The four labels [1to1], [a b], [A_B], [a_b] get four pairwise
    distinct names, each matching [^[a-z][a-z0-9_]*$] or starting with [c_];
    the third and the fourth label have the same candidate [a_b] and get
    different names. *)
Theorem four_labels (U : UnicodeData) :
  returns [py "1to1"; py "a b"; py "A_B"; py "a_b"]
          [py "c_1to1"; py "a_b"; py "a_b_2"; py "a_b_3"] ∧
  NoDup [py "c_1to1"; py "a_b"; py "a_b_2"; py "a_b_3"] ∧
  Forall (λ x, matches_ident_regex x = true ∨ py "c_" `prefix_of` x)
         [py "c_1to1"; py "a_b"; py "a_b_2"; py "a_b_3"] ∧
  candidate (py "A_B") = py "a_b" ∧
  candidate (py "a_b") = py "a_b" ∧
  py "a_b_2" ≠ py "a_b_3".
Proof.
  assert (_sanitize_columns 3 [py "1to1"; py "a b"; py "A_B"; py "a_b"]
          = Some [py "c_1to1"; py "a_b"; py "a_b_2"; py "a_b_3"]) as Hrun
    by (by vm_compute).
  split; [by exists 3%nat|].
  split; [by apply for_cols_fresh in Hrun as [? _]|].
  split.
  { repeat (constructor; [left; by vm_compute|]). constructor. }
  split; [by vm_compute|]. split; [by vm_compute|]. by vm_compute.
Qed.

(** C7. The load writes with [WRITE_TRUNCATE]: whatever the warehouse held
    before, the target table afterwards holds the rows of the staging file
    under the sanitised column names, the other tables are as they were, and
    a second load of the same file leaves the warehouse as the first one left
    it. *)
Theorem load_full_replace (U : UnicodeData) (cell : Type)
    (fs : gmap string (DataFrame cell)) (parquet_path table_id : string)
    (df : DataFrame cell) (fuel : nat) :
  fs !! parquet_path = Some df →
  (length (columns df) < fuel)%nat →
  ∃ T : DataFrame cell,
    returns (columns df) (columns T) ∧
    rows T = rows df ∧
    ∀ wh : gmap string (DataFrame cell), ∃ wh' stdout,
      load_parquet_to_bigquery fuel fs wh parquet_path table_id = Ok (wh', stdout) ∧
      wh' !! table_id = Some T ∧
      (∀ t, t ≠ table_id → wh' !! t = wh !! t) ∧
      load_parquet_to_bigquery fuel fs wh' parquet_path table_id = Ok (wh', stdout).
Proof.
  intros Hfile Hfuel.
  destruct (for_cols_total fuel (columns df) ∅) as [new Hnew].
  { rewrite size_empty. lia. }
  pose proof (for_cols_length _ _ _ _ Hnew) as Hlen.
  exists {| columns := new; rows := rows df |}.
  split; [by exists fuel|]. split; [done|].
  assert (∀ wh : gmap string (DataFrame cell),
    load_parquet_to_bigquery fuel fs wh parquet_path table_id
    = Ok (<[table_id := {| columns := new; rows := rows df |}]> wh,
          if decide (columns df ≠ new)
          then [renames_line (columns df) new] else [])) as Hload.
  { intros wh. unfold load_parquet_to_bigquery, read_parquet.
    rewrite Hfile. cbn [mbind result_bind].
    unfold _sanitize_columns. rewrite Hnew. cbn [mbind result_bind].
    unfold set_columns. rewrite decide_True by done. done. }
  intros wh. eexists _, _. split; [apply Hload|].
  split; [apply lookup_insert_eq|].
  split; [intros t Ht; by apply lookup_insert_ne|].
  by rewrite Hload, insert_insert_eq.
Qed.

Lemma load_full_replace_witness :
  ∃ T : DataFrame nat,
    columns T = [py "movie_name"; py "gross_in"] ∧
    ∀ wh : gmap string (DataFrame nat), ∃ wh' stdout,
      load_parquet_to_bigquery (U:=ascii_only) 3
        {[ "action.parquet"%string :=
             {| columns := [py "Movie Name"; py "Gross(in $)"]; rows := [[1; 2]%nat] |} ]}
        wh "action.parquet" "imdb.action" = Ok (wh', stdout) ∧
      wh' !! "imdb.action"%string = Some T.
Proof.
  destruct (load_full_replace ascii_only nat
              {[ "action.parquet"%string :=
                   {| columns := [py "Movie Name"; py "Gross(in $)"];
                      rows := [[1; 2]%nat] |} ]}
              "action.parquet" "imdb.action"
              {| columns := [py "Movie Name"; py "Gross(in $)"]; rows := [[1; 2]%nat] |}
              3%nat)
    as (T & Hcols & _ & Hload).
  - apply lookup_singleton_eq.
  - simpl. lia.
  - exists T. split.
    + apply (returns_functional (U:=ascii_only) _ _ _ Hcols). exists 2%nat. by vm_compute.
    + intros wh. destruct (Hload wh) as (wh' & out & H1 & H2 & _).
      by exists wh', out.
Defined.

(** C8. [check_file_exists] returns a boolean for every outcome of the probe:
    [True] exactly for a response with status 200, [False] for any other
    status and for every error of the HTTP library (connection failure,
    timeout, ...).  It never raises. *)
Theorem check_file_exists_never_raises (o : probe_outcome) :
  check_file_exists o =
  Ok match o with
     | Responded r => (status_code r =? 200)%Z
     | Failed _ => false
     end.
Proof. by destruct o as [r|e]. Qed.

(** * Further properties of the sanitiser *)

(** ** Strings that the steps of lines 21-23 leave unchanged *)

Lemma lstrip_where_id p s :
  (∀ a, head s = Some a → p a = false) → lstrip_where p s = s.
Proof. destruct s as [|c t]; simpl; [done|]. intros H. by rewrite (H c). Qed.

Lemma strip_where_id p s :
  (∀ a, head s = Some a → p a = false) →
  (∀ b, last s = Some b → p b = false) →
  strip_where p s = s.
Proof.
  intros Hh Hl. unfold strip_where, rstrip_where.
  rewrite (lstrip_where_id p s Hh), lstrip_where_id.
  - apply reverse_involutive.
  - intros a. rewrite head_reverse. apply Hl.
Qed.

Lemma lstrip_where_suffix p s : ∃ a, s = a ++ lstrip_where p s.
Proof.
  induction s as [|c t [a IH]]; simpl; [by exists []|].
  destruct (p c); [|by exists []]. exists (c :: a). simpl. by f_equal.
Qed.

Lemma strip_where_infix p s : ∃ a b, s = a ++ strip_where p s ++ b.
Proof.
  unfold strip_where, rstrip_where.
  destruct (lstrip_where_suffix p s) as [a Ha].
  destruct (lstrip_where_suffix p (reverse (lstrip_where p s))) as [b Hb].
  exists a, (reverse b). rewrite <- reverse_app, <- Hb, reverse_involutive. done.
Qed.

Lemma strip_where_last p s c : last (strip_where p s) = Some c → p c = false.
Proof.
  unfold strip_where, rstrip_where. rewrite last_reverse.
  intros [r Hr]%head_Some. by eapply lstrip_where_head.
Qed.

Lemma sub_scan_none cl repl b s :
  Forall (λ c, class_matches cl c = false) s → sub_scan cl repl b s = s.
Proof.
  intros H. revert b. induction H as [|c t Hc _ IH]; intros b; simpl; [done|].
  by rewrite Hc, IH.
Qed.

Lemma no_double_underscore_tail c t :
  no_double_underscore (c :: t) = true → no_double_underscore t = true.
Proof. destruct t; simpl; [done|]. by intros [_ ?]%andb_true_iff. Qed.

Lemma no_double_underscore_app_r a s :
  no_double_underscore (a ++ s) = true → no_double_underscore s = true.
Proof.
  induction a as [|c a IH]; simpl app; [done|].
  intros H. by apply IH, (no_double_underscore_tail c).
Qed.

Lemma no_double_underscore_app_l s b :
  no_double_underscore (s ++ b) = true → no_double_underscore s = true.
Proof.
  induction s as [|c1 [|c2 t] IH]; [done..|].
  simpl. intros [H1 H2]%andb_true_iff. rewrite H1. simpl. by apply IH.
Qed.

Lemma no_double_underscore_app l1 l2 :
  no_double_underscore l1 = true →
  no_double_underscore l2 = true →
  (∀ a, last l1 = Some a → is_underscore a = false) →
  no_double_underscore (l1 ++ l2) = true.
Proof.
  induction l1 as [|c1 [|c2 t] IH]; intros H1 H2 Hl; [done| |].
  - specialize (Hl c1 eq_refl). destruct l2 as [|d l2]; [done|].
    change (negb (is_underscore c1 && is_underscore d)
            && no_double_underscore (d :: l2) = true).
    by rewrite Hl, H2.
  - simpl in H1. apply andb_true_iff in H1 as [Hc H1].
    change (negb (is_underscore c1 && is_underscore c2)
            && no_double_underscore ((c2 :: t) ++ l2) = true).
    rewrite Hc. simpl. apply IH; [done|done|].
    intros a Ha. apply Hl. by rewrite last_cons_cons.
Qed.

Lemma no_double_underscore_none l :
  Forall (λ c, is_underscore c = false) l → no_double_underscore l = true.
Proof.
  induction 1 as [|c t Hc _ IH]; [done|].
  destruct t; [done|]. simpl in *. by rewrite Hc, IH.
Qed.

(** Substituting [_+] by [_] changes nothing in a string without two
    underscores in a row, and always yields such a string. *)
Lemma sub_scan_underscore_id s :
  no_double_underscore s = true →
  sub_scan underscore [95] false s = s ∧
  ((∀ a, head s = Some a → is_underscore a = false) →
   sub_scan underscore [95] true s = s).
Proof.
  induction s as [|c t IH]; intros Hnd; simpl; [done|].
  rewrite class_underscore.
  destruct (IH (no_double_underscore_tail _ _ Hnd)) as [IH1 IH2].
  destruct (is_underscore c) eqn:Hc.
  - split.
    + apply N.eqb_eq in Hc as ->. f_equal. apply IH2.
      intros a Ha. destruct t as [|c2 t]; [done|]. injection Ha as ->.
      simpl in Hnd. by apply andb_true_iff in Hnd as [?%negb_true_iff _].
    + intros Hh. by rewrite (Hh c eq_refl) in Hc.
  - split; [|intros _]; by rewrite IH1.
Qed.

Lemma sub_scan_underscore_nodouble s :
  no_double_underscore (sub_scan underscore [95] false s) = true ∧
  no_double_underscore (sub_scan underscore [95] true s) = true ∧
  (∀ a, head (sub_scan underscore [95] true s) = Some a →
        is_underscore a = false).
Proof.
  induction s as [|c t (IH1 & IH2 & IH3)]; simpl; [done|].
  rewrite class_underscore. destruct (is_underscore c) eqn:Hc.
  - split; [|done].
    destruct (sub_scan underscore [95] true t) as [|a X] eqn:E; [done|].
    change (negb (is_underscore 95 && is_underscore a)
            && no_double_underscore (a :: X) = true).
    by rewrite (IH3 a eq_refl), IH2.
  - assert (no_double_underscore
              (c :: sub_scan underscore [95] false t) = true) as H.
    { destruct (sub_scan underscore [95] false t) as [|a X]; [done|].
      change (negb (is_underscore c && is_underscore a)
              && no_double_underscore (a :: X) = true).
      by rewrite Hc, IH1. }
    split; [done|]. split; [done|]. by intros a [= <-].
Qed.

Lemma word_not_space c : in_word_class c = true → ascii_isspace c = false.
Proof. unfold in_word_class, ascii_isdigit, ascii_isspace. cmp_cases. Qed.

Lemma word_tolower c : in_word_class c = true → ascii_tolower c = c.
Proof. unfold in_word_class, ascii_isdigit, ascii_tolower. cmp_cases. Qed.

Lemma digit_not_underscore c : ascii_isdigit c = true → is_underscore c = false.
Proof. unfold ascii_isdigit, is_underscore. cmp_cases. Qed.

Lemma decimal_nonempty i : decimal i ≠ [].
Proof.
  unfold decimal. intros E.
  assert (N.to_uint i = Nil) as Hnil by (by destruct (N.to_uint i)).
  pose proof (Unsigned.of_to i) as Hi. rewrite Hnil in Hi.
  subst i. discriminate Hnil.
Qed.

(** ** Clean names *)

Lemma clean_parts s :
  clean s = true ↔
  valid_identifier s = true ∧ ends_clean s = true ∧ no_double_underscore s = true.
Proof. unfold clean. rewrite !andb_true_iff. tauto. Qed.

Lemma valid_word s :
  valid_identifier s = true → Forall (λ x, in_word_class x = true) s.
Proof.
  destruct s as [|c0 r]; [done|]. unfold valid_identifier.
  intros [_ H]%andb_true_iff. by apply Forall_of_forallb.
Qed.

Lemma ends_clean_head s a :
  ends_clean s = true → head s = Some a → is_underscore a = false.
Proof.
  unfold ends_clean. destruct (head s), (last s); try done.
  intros [H _]%andb_true_iff [= <-]. by apply negb_true_iff.
Qed.

Lemma ends_clean_last s b :
  ends_clean s = true → last s = Some b → is_underscore b = false.
Proof.
  unfold ends_clean. destruct (head s), (last s); try done.
  intros [_ H]%andb_true_iff [= <-]. by apply negb_true_iff.
Qed.

Lemma ends_clean_intro s a b :
  head s = Some a → last s = Some b →
  is_underscore a = false → is_underscore b = false → ends_clean s = true.
Proof. unfold ends_clean. by intros -> -> -> ->. Qed.

Section Clean.
Context {U : UnicodeData}.

Lemma isspace_word c : in_word_class c = true → isspace c = false.
Proof.
  intros Hc. unfold isspace.
  by rewrite (in_word_class_ascii c Hc), (word_not_space c Hc).
Qed.

Lemma lower_from_word pre s :
  Forall (λ x, in_word_class x = true) s → lower_from pre s = s.
Proof.
  intros H. revert pre. induction H as [|c t Hc _ IH]; intros pre; simpl; [done|].
  by rewrite (in_word_class_ascii c Hc), (word_tolower c Hc), IH.
Qed.

(** Lines 21-25 leave a clean name as it is. *)
Lemma scrubbed_clean_id s : clean s = true → scrubbed s = s.
Proof.
  intros (Hv & He & Hnd)%clean_parts. pose proof (valid_word s Hv) as Hw.
  rewrite Forall_forall in Hw.
  unfold scrubbed. rewrite strip_chars_underscore.
  assert (strip s = s) as ->.
  { apply strip_where_id.
    - intros a Ha%head_Some_elem_of. by apply isspace_word, Hw.
    - intros b Hb%last_Some_elem_of. by apply isspace_word, Hw. }
  unfold lower. rewrite lower_from_word by by apply Forall_forall.
  unfold re_sub_plus. rewrite (sub_scan_none not_word).
  2:{ apply Forall_forall. intros c Hc. cbv beta. rewrite class_not_word.
      by rewrite (Hw c Hc). }
  change (py "_") with [95].
  rewrite (proj1 (sub_scan_underscore_id s Hnd)).
  apply strip_where_id.
  - intros a. by apply ends_clean_head.
  - intros b. by apply ends_clean_last.
Qed.

Lemma candidate_clean_id s : clean s = true → candidate s = s.
Proof.
  intros Hc. rewrite candidate_scrubbed, (scrubbed_clean_id s Hc).
  apply clean_parts in Hc as (Hv & _ & _).
  destruct s as [|c0 r]; [done|]. unfold valid_identifier in Hv.
  apply andb_true_iff in Hv as [Hd%negb_true_iff _]. by rewrite Hd.
Qed.

Lemma scrubbed_last c b : last (scrubbed c) = Some b → is_underscore b = false.
Proof. unfold scrubbed. rewrite strip_chars_underscore. apply strip_where_last. Qed.

Lemma scrubbed_nodouble c : no_double_underscore (scrubbed c) = true.
Proof.
  unfold scrubbed. rewrite strip_chars_underscore.
  set (X := re_sub_plus underscore (py "_") _).
  assert (no_double_underscore X = true) as HX
    by apply (proj1 (sub_scan_underscore_nodouble _)).
  destruct (strip_where_infix is_underscore X) as (a & b & E).
  rewrite E in HX. by apply no_double_underscore_app_r, no_double_underscore_app_l in HX.
Qed.

(** The candidate of a label that keeps a letter or a digit is clean. *)
Lemma candidate_clean c : scrubbed c ≠ [] → clean (candidate c) = true.
Proof.
  intros Hne. apply clean_parts. split; [apply candidate_valid|].
  rewrite candidate_scrubbed.
  pose proof (scrubbed_nodouble c) as Hnd.
  pose proof (scrubbed_last c) as Hlast.
  pose proof (scrubbed_head c) as Hhead.
  destruct (scrubbed c) as [|c0 r]; [done|].
  assert (is_underscore c0 = false) as Hc0.
  { apply N.eqb_neq. by eapply Hhead. }
  destruct (last (c0 :: r)) as [b|] eqn:Hb; [|by apply last_None in Hb].
  specialize (Hlast b eq_refl).
  destruct (ascii_isdigit c0).
  - change (py "c_" ++ c0 :: r) with (99 :: 95 :: c0 :: r). split.
    + apply (ends_clean_intro _ 99 b); [done| |done|done].
      by rewrite !last_cons_cons.
    + change (negb (is_underscore 99 && is_underscore 95)
              && (negb (is_underscore 95 && is_underscore c0)
                  && no_double_underscore (c0 :: r)) = true).
      by rewrite Hc0, Hnd.
  - split; [|done]. by apply (ends_clean_intro _ c0 b).
Qed.

Lemma fstring_clean b j : clean b = true → clean (fstring b j) = true.
Proof.
  intros (Hv & He & Hnd)%clean_parts. apply clean_parts.
  split; [by apply fstring_valid|].
  pose proof (decimal_nonempty j) as Hd.
  pose proof (uint_digits_digits (N.to_uint j)) as Hdig. fold (decimal j) in Hdig.
  unfold fstring. destruct (decimal j) as [|d0 d] eqn:Ed; [done|]. clear Hd.
  assert (Forall (λ c, is_underscore c = false) (d0 :: d)) as Hnu.
  { eapply Forall_impl; [exact Hdig|]. apply digit_not_underscore. }
  destruct b as [|c0 r]; [done|].
  destruct (last (d0 :: d)) as [z|] eqn:Hz; [|by apply last_None in Hz].
  split.
  - apply (ends_clean_intro _ c0 z); [done| | |].
    + change ([95] ++ d0 :: d) with (95 :: d0 :: d).
      by rewrite last_app_cons, last_cons_cons.
    + by eapply ends_clean_head.
    + apply last_Some_elem_of in Hz. by rewrite Forall_forall in Hnu; apply Hnu.
  - apply no_double_underscore_app; [done| |].
    + assert (no_double_underscore (d0 :: d) = true) as H
        by by apply no_double_underscore_none.
      change (negb (is_underscore 95 && is_underscore d0)
              && no_double_underscore (d0 :: d) = true).
      apply Forall_cons in Hnu as [Hd0 _]. by rewrite Hd0, H, andb_false_r.
    + intros a. by apply ends_clean_last.
Qed.
End Clean.

Section CleanRuns.
Context {U : UnicodeData}.

Lemma for_cols_clean fuel cols used :
  (1 ≤ fuel)%nat →
  NoDup cols →
  Forall (λ c, clean c = true) cols →
  (∀ c, c ∈ cols → c ∉ used) →
  for_cols fuel cols [] used = Some cols.
Proof.
  intros Hfuel. revert used.
  induction cols as [|c rest IH]; intros used Hnd Hcl Hfree; [done|].
  apply NoDup_cons in Hnd as [Hc Hnd]. apply Forall_cons in Hcl as [Hcc Hcl].
  apply for_cols_cons. exists c, rest. split; [|split; [|done]].
  - rewrite (candidate_clean_id c Hcc).
    destruct fuel as [|f]; [lia|]. simpl.
    rewrite decide_False; [done|]. apply Hfree. by left.
  - apply IH; [done|done|].
    intros x Hx [->%elem_of_singleton|Hu]%elem_of_union; [done|].
    apply (Hfree x); [by right|done].
Qed.

Lemma for_cols_out_clean fuel cols used out :
  Forall (λ c, scrubbed c ≠ []) cols →
  for_cols fuel cols [] used = Some out →
  Forall (λ r, clean r = true) out.
Proof.
  intros Hne. revert used out.
  induction Hne as [|c rest Hc _ IH]; intros used out.
  - intros [= <-]. constructor.
  - intros (s' & tl & Hs' & Htl & ->)%for_cols_cons. constructor; [|by eapply IH].
    destruct (while_result _ _ _ _ _ _ Hs') as [[_ ->]|[_ (j & _ & -> & _)]].
    + by apply candidate_clean.
    + by apply fstring_clean, candidate_clean.
Qed.

Lemma tried_elem_bound fuel base i s x :
  x ∈ tried fuel base i s →
  (x = s ∧ (0 < fuel)%nat) ∨
  ∃ j, i < j ∧ j < i + N.of_nat fuel ∧ x = fstring base j.
Proof.
  revert i s. induction fuel as [|f IH]; intros i s; simpl tried.
  - by intros ?%elem_of_nil.
  - intros [->|Hx]%elem_of_cons; [left; split; [done|lia]|]. right.
    destruct (IH _ _ Hx) as [[-> Hf]|(j & Hj1 & Hj2 & ->)].
    + exists (i + 1). split; [lia|]. split; [lia|done].
    + exists j. split; [lia|]. split; [lia|done].
Qed.
End CleanRuns.

(** X1. Labels that are already clean and pairwise distinct come back
    unchanged, in the same order, after a single evaluation of the loop
    condition per label. *)
Theorem clean_names_unchanged (U : UnicodeData) (cols : list str) (fuel : nat) :
  (1 ≤ fuel)%nat →
  NoDup cols →
  Forall (λ c, clean c = true) cols →
  _sanitize_columns fuel cols = Some cols.
Proof.
  intros Hfuel Hnd Hcl. apply for_cols_clean; [done..|].
  intros c _. apply not_elem_of_empty.
Qed.

Lemma clean_names_unchanged_witness :
  (1 ≤ 1)%nat ∧
  NoDup [py "movie_name"; py "year"; py "gross_in"] ∧
  Forall (λ c, clean c = true) [py "movie_name"; py "year"; py "gross_in"] ∧
  _sanitize_columns (U:=ascii_only) 1 [py "movie_name"; py "year"; py "gross_in"]
  = Some [py "movie_name"; py "year"; py "gross_in"].
Proof.
  assert (NoDup [py "movie_name"; py "year"; py "gross_in"]) as Hnd.
  { apply (bool_decide_unpack _). by vm_compute. }
  assert (Forall (λ c, clean c = true)
            [py "movie_name"; py "year"; py "gross_in"]) as Hcl.
  { repeat constructor. }
  split; [lia|]. split; [exact Hnd|]. split; [exact Hcl|].
  exact (clean_names_unchanged ascii_only _ 1%nat (le_n 1) Hnd Hcl).
Defined.

(** X2. Sanitising is idempotent whenever every label keeps at least one
    letter or digit: the names returned are then clean, and sanitising them
    again returns them unchanged.  (A label that scrubs to nothing is named
    [c_], which a second pass would turn into [c].) *)
Theorem sanitize_columns_idempotent (U : UnicodeData) (cols out : list str) :
  Forall (λ c, scrubbed c ≠ []) cols →
  returns cols out →
  Forall (λ r, clean r = true) out ∧ returns out out.
Proof.
  intros Hne [fuel Hout].
  pose proof (for_cols_out_clean _ _ _ _ Hne Hout) as Hcl.
  split; [done|]. exists 1%nat. apply for_cols_clean; [lia| |done|].
  - by apply for_cols_fresh in Hout as [? _].
  - intros c _. apply not_elem_of_empty.
Qed.

Lemma sanitize_columns_idempotent_witness :
  Forall (λ c, scrubbed (U:=ascii_only) c ≠ []) [py "Gross(in $)"; py "9 Lives"; py "gross in"]
  ∧ returns (U:=ascii_only) [py "Gross(in $)"; py "9 Lives"; py "gross in"]
      [py "gross_in"; py "c_9_lives"; py "gross_in_2"]
  ∧ returns (U:=ascii_only) [py "gross_in"; py "c_9_lives"; py "gross_in_2"]
      [py "gross_in"; py "c_9_lives"; py "gross_in_2"].
Proof.
  assert (Forall (λ c, scrubbed (U:=ascii_only) c ≠ [])
            [py "Gross(in $)"; py "9 Lives"; py "gross in"]) as Hne.
  { repeat constructor; by vm_compute. }
  assert (returns (U:=ascii_only) [py "Gross(in $)"; py "9 Lives"; py "gross in"]
            [py "gross_in"; py "c_9_lives"; py "gross_in_2"]) as Hrun.
  { exists 2%nat. by vm_compute. }
  split; [exact Hne|]. split; [exact Hrun|].
  exact (proj2 (sanitize_columns_idempotent ascii_only _ _ Hne Hrun)).
Defined.

(** X3. The counter appended to the name at position [k] (counting from 0) is
    at most [k + 1]: a name is the candidate itself or the candidate followed
    by [_j] with [2 ≤ j ≤ k + 1]. *)
Theorem suffix_counter_bound (U : UnicodeData) (cols out : list str)
    (k : nat) (c r : str) :
  returns cols out →
  cols !! k = Some c →
  out !! k = Some r →
  r = candidate c ∨
  ∃ j, 2 ≤ j ∧ j ≤ N.of_nat k + 1 ∧ r = fstring (candidate c) j.
Proof.
  intros [fuel Hout] Hk Hr.
  destruct (for_cols_lookup _ _ _ _ _ Hout Hk) as (r' & Hr' & Hloop).
  rewrite Hr in Hr'. injection Hr' as <-.
  destruct (while_result _ _ _ _ _ _ Hloop)
    as [[_ ->]|[Hused (j & Hj & -> & _ & Hbelow)]]; [by left|].
  right. exists j. split; [lia|]. split; [|done].
  set (b := candidate c) in *. set (n := N.to_nat (j - 1)).
  assert (n ≤ k)%nat; [|lia].
  assert (tried n b 1 b ⊆+ take k out) as Hsub.
  { apply NoDup_submseteq.
    - apply tried_NoDup. intros j' _. apply fstring_ne_base.
    - intros x [[-> _]|(j' & Hj1 & Hj2 & ->)]%tried_elem_bound.
      + by apply (elem_of_list_to_set (C:=gset str)) in Hused.
      + apply (elem_of_list_to_set (C:=gset str)), Hbelow; lia. }
  apply submseteq_length in Hsub.
  rewrite length_tried, length_take in Hsub. lia.
Qed.

Lemma suffix_counter_bound_witness :
  returns (U:=ascii_only) [py "a"; py "A"; py " a "] [py "a"; py "a_2"; py "a_3"]
  ∧ (py "a_3" = candidate (U:=ascii_only) (py " a ")
     ∨ ∃ j, 2 ≤ j ∧ j ≤ N.of_nat 2 + 1
            ∧ py "a_3" = fstring (candidate (U:=ascii_only) (py " a ")) j).
Proof.
  assert (returns (U:=ascii_only) [py "a"; py "A"; py " a "]
            [py "a"; py "a_2"; py "a_3"]) as Hrun.
  { exists 3%nat. by vm_compute. }
  split; [exact Hrun|].
  exact (suffix_counter_bound ascii_only _ _ 2%nat (py " a ") (py "a_3")
           Hrun eq_refl eq_refl).
Defined.

(** * The load step, continued *)

Section LoadFacts.
Context {U : UnicodeData} {cell : Type}.

(** What the load does once the file is there and the sanitiser has
    returned. *)
Lemma load_eval fuel (fs wh : gmap string (DataFrame cell)) path tid df new :
  fs !! path = Some df →
  _sanitize_columns fuel (columns df) = Some new →
  load_parquet_to_bigquery fuel fs wh path tid
  = Ok (<[tid := {| columns := new; rows := rows df |}]> wh,
        if decide (columns df ≠ new)
        then [renames_line (columns df) new] else []).
Proof.
  intros Hfile Hnew. unfold load_parquet_to_bigquery, read_parquet.
  rewrite Hfile. cbn [mbind result_bind]. rewrite Hnew. cbn [mbind result_bind].
  unfold set_columns. rewrite decide_True; [done|].
  by eapply for_cols_length.
Qed.
End LoadFacts.

(** X4. A staging file whose column names are already clean and pairwise
    distinct is loaded as it is: the target table holds exactly the file's
    frame and no rename line is printed. *)
Theorem load_clean_columns (U : UnicodeData) (cell : Type)
    (fs wh : gmap string (DataFrame cell)) (parquet_path table_id : string)
    (df : DataFrame cell) (fuel : nat) :
  fs !! parquet_path = Some df →
  (1 ≤ fuel)%nat →
  NoDup (columns df) →
  Forall (λ c, clean c = true) (columns df) →
  load_parquet_to_bigquery fuel fs wh parquet_path table_id
  = Ok (<[table_id := df]> wh, []).
Proof.
  intros Hfile Hfuel Hnd Hcl.
  rewrite (load_eval fuel fs wh parquet_path table_id df (columns df) Hfile).
  - rewrite decide_False by (by intros ?). by destruct df.
  - apply for_cols_clean; [done..|]. intros c _. apply not_elem_of_empty.
Qed.

Lemma load_clean_columns_witness :
  load_parquet_to_bigquery (U:=ascii_only) 1
    {[ "war.parquet"%string :=
         {| columns := [py "movie_name"; py "year"]; rows := [[7; 1999]%nat] |} ]}
    ∅ "war.parquet" "p.d.war"
  = Ok (<[ "p.d.war"%string :=
           {| columns := [py "movie_name"; py "year"]; rows := [[7; 1999]%nat] |} ]> ∅,
        []).
Proof.
  apply (load_clean_columns ascii_only nat).
  - apply lookup_singleton_eq.
  - lia.
  - apply (bool_decide_unpack _). by vm_compute.
  - repeat constructor.
Defined.

(** X5. Without the staging file the load raises [FileNotFoundError] before
    anything else happens: whatever the loop budget, the sanitiser is not
    reached and no write is sent to the warehouse. *)
Theorem load_missing_file (U : UnicodeData) (cell : Type)
    (fs wh : gmap string (DataFrame cell)) (parquet_path table_id : string)
    (fuel : nat) :
  fs !! parquet_path = None →
  load_parquet_to_bigquery fuel fs wh parquet_path table_id
  = Raise FileNotFoundError.
Proof.
  intros Hfile. unfold load_parquet_to_bigquery, read_parquet. by rewrite Hfile.
Qed.

Lemma load_missing_file_witness :
  load_parquet_to_bigquery (U:=ascii_only) (cell:=nat) 0 ∅ ∅ "war.parquet" "p.d.war"
  = Raise FileNotFoundError.
Proof.
  apply (load_missing_file ascii_only nat). apply lookup_empty.
Defined.

(** * The build step *)

Lemma raise_for_status_ok r :
  raise_for_status r = Ok () ↔ ¬ (400 ≤ status_code r < 600)%Z.
Proof.
  unfold raise_for_status.
  destruct (Z.leb_spec 400 (status_code r)), (Z.ltb_spec (status_code r) 600);
    simpl; split; try done; try lia.
Qed.

Section BuildFacts.
Context {cell : Type} (read_csv : str → result (DataFrame cell)).

(** A returned path tells how every step went. *)
Lemma csv_url_to_parquet_ok mk web (fs fs' : gmap string (DataFrame cell))
    url out_dir name p :
  csv_url_to_parquet read_csv mk web fs url out_dir name = (Ok p, fs') →
  mk = Ok () ∧
  ∃ r text df,
    web url = Fetched r text ∧
    ¬ (400 ≤ status_code r < 600)%Z ∧
    read_csv text = Ok df ∧
    p = path_join out_dir name ∧
    fs' = <[p := df]> fs.
Proof.
  unfold csv_url_to_parquet, requests_get.
  destruct mk as [[]|e|]; cbn [mbind result_bind]; [|done..].
  destruct (web url) as [r text|e]; cbn [mbind result_bind fst snd]; [|done].
  destruct (raise_for_status r) as [[]|e|] eqn:Hst; cbn [mbind result_bind fst snd];
    [|done..].
  destruct (read_csv text) as [df|e|] eqn:Hcsv; [|done..].
  intros [= <- <-]. split; [done|]. exists r, text, df.
  split; [done|]. split; [by apply raise_for_status_ok|]. done.
Qed.

Lemma csv_url_to_parquet_eval web (fs : gmap string (DataFrame cell))
    url out_dir name r text df :
  web url = Fetched r text →
  ¬ (400 ≤ status_code r < 600)%Z →
  read_csv text = Ok df →
  csv_url_to_parquet read_csv (Ok ()) web fs url out_dir name
  = (Ok (path_join out_dir name), <[path_join out_dir name := df]> fs).
Proof.
  intros Hweb Hst%raise_for_status_ok Hcsv.
  unfold csv_url_to_parquet, requests_get.
  cbn [mbind result_bind]. rewrite Hweb. cbn [mbind result_bind fst snd].
  rewrite Hst. cbn [mbind result_bind]. by rewrite Hcsv.
Qed.
End BuildFacts.

(** X6. A response with a client or server error status makes the build
    raise [HTTPError] and leaves every file as it was, whereas the
    availability check answers [False] to a response of that status. *)
Theorem build_http_error_is_hard (cell : Type)
    (read_csv : str → result (DataFrame cell)) (web : string → get_outcome)
    (fs : gmap string (DataFrame cell)) (url out_dir parquet_name : string)
    (r : Response) (text : str) :
  web url = Fetched r text →
  (400 ≤ status_code r < 600)%Z →
  csv_url_to_parquet read_csv (Ok ()) web fs url out_dir parquet_name
  = (Raise (HTTPError (status_code r)), fs)
  ∧ check_file_exists (Responded r) = Ok false.
Proof.
  intros Hweb Hst. split.
  - unfold csv_url_to_parquet, requests_get, raise_for_status.
    cbn [mbind result_bind]. rewrite Hweb. cbn [mbind result_bind fst snd].
    destruct (Z.leb_spec 400 (status_code r)); [|lia].
    destruct (Z.ltb_spec (status_code r) 600); [|lia]. done.
  - cbn. destruct (Z.eqb_spec (status_code r) 200); [lia|done].
Qed.

Lemma build_http_error_is_hard_witness :
  csv_url_to_parquet (cell:=nat) (λ _, Raise ValueError) (Ok ())
    (λ _, Fetched {| status_code := 404 |} (py "Not Found")) ∅
    "https://host/war.csv" "/opt/airflow/fake_gcs/war" "war.parquet"
  = (Raise (HTTPError 404), ∅)
  ∧ check_file_exists (Responded {| status_code := 404 |}) = Ok false.
Proof.
  apply (build_http_error_is_hard nat (λ _, Raise ValueError)
           (λ _, Fetched {| status_code := 404 |} (py "Not Found")) ∅
           "https://host/war.csv" "/opt/airflow/fake_gcs/war" "war.parquet"
           {| status_code := 404 |} (py "Not Found")).
  - reflexivity.
  - simpl. lia.
Defined.

(** X7. A transport failure of the GET makes the build raise the library's
    error and leaves every file as it was, whereas the availability check
    answers [False] to the same failure. *)
Theorem build_transport_error_is_hard (cell : Type)
    (read_csv : str → result (DataFrame cell)) (web : string → get_outcome)
    (fs : gmap string (DataFrame cell)) (url out_dir parquet_name : string)
    (e : requests_error) :
  web url = FetchFailed e →
  csv_url_to_parquet read_csv (Ok ()) web fs url out_dir parquet_name
  = (Raise (RequestException e), fs)
  ∧ check_file_exists (Failed e) = Ok false.
Proof.
  intros Hweb. split; [|done].
  unfold csv_url_to_parquet, requests_get. cbn [mbind result_bind]. by rewrite Hweb.
Qed.

Lemma build_transport_error_is_hard_witness :
  csv_url_to_parquet (cell:=nat) (λ _, Raise ValueError) (Ok ())
    (λ _, FetchFailed ConnectionError) ∅
    "https://host/war.csv" "/opt/airflow/fake_gcs/war" "war.parquet"
  = (Raise (RequestException ConnectionError), ∅)
  ∧ check_file_exists (Failed ConnectionError) = Ok false.
Proof.
  apply (build_transport_error_is_hard nat (λ _, Raise ValueError)
           (λ _, FetchFailed ConnectionError) ∅
           "https://host/war.csv" "/opt/airflow/fake_gcs/war" "war.parquet"
           ConnectionError).
  reflexivity.
Defined.



(** X9. When the build returns a path, that path is
    [os.path.join(out_dir, parquet_name)], reading it back gives the table
    parsed from the body of a response whose status is no error, no other
    file has changed, and running the build again on the same response leaves
    the files as they are (the write replaces, it does not append). *)
Theorem build_writes_file (cell : Type)
    (read_csv : str → result (DataFrame cell)) (mk : result unit)
    (web : string → get_outcome) (fs fs' : gmap string (DataFrame cell))
    (url out_dir parquet_name p : string) :
  csv_url_to_parquet read_csv mk web fs url out_dir parquet_name = (Ok p, fs') →
  p = path_join out_dir parquet_name ∧
  (∃ r text df,
     web url = Fetched r text ∧ ¬ (400 ≤ status_code r < 600)%Z ∧
     read_csv text = Ok df ∧ read_parquet fs' p = Ok df) ∧
  (∀ q, q ≠ p → fs' !! q = fs !! q) ∧
  csv_url_to_parquet read_csv mk web fs' url out_dir parquet_name = (Ok p, fs').
Proof.
  intros Hrun.
  destruct (csv_url_to_parquet_ok _ _ _ _ _ _ _ _ _ Hrun)
    as (-> & r & text & df & Hweb & Hst & Hcsv & -> & ->).
  split; [done|]. split; [|split].
  - exists r, text, df. repeat split; [done|done..|].
    unfold read_parquet. by rewrite lookup_insert_eq.
  - intros q Hq. by apply lookup_insert_ne.
  - rewrite (csv_url_to_parquet_eval read_csv web _ url _ _ r text df) by done.
    by rewrite insert_insert_eq.
Qed.

Lemma build_writes_file_witness :
  csv_url_to_parquet (cell:=nat)
    (λ _, Ok {| columns := [py "Movie Name"]; rows := [[1%nat]] |}) (Ok ())
    (λ _, Fetched {| status_code := 200 |} (py "Movie Name")) ∅
    "https://host/war.csv" "/opt/airflow/fake_gcs/war" "war.parquet"
  = (Ok "/opt/airflow/fake_gcs/war/war.parquet"%string,
     {[ "/opt/airflow/fake_gcs/war/war.parquet"%string :=
          {| columns := [py "Movie Name"]; rows := [[1%nat]] |} ]})
  ∧ "/opt/airflow/fake_gcs/war/war.parquet"%string
    = path_join "/opt/airflow/fake_gcs/war" "war.parquet".
Proof.
  assert (csv_url_to_parquet (cell:=nat)
    (λ _, Ok {| columns := [py "Movie Name"]; rows := [[1%nat]] |}) (Ok ())
    (λ _, Fetched {| status_code := 200 |} (py "Movie Name")) ∅
    "https://host/war.csv" "/opt/airflow/fake_gcs/war" "war.parquet"
  = (Ok "/opt/airflow/fake_gcs/war/war.parquet"%string,
     {[ "/opt/airflow/fake_gcs/war/war.parquet"%string :=
          {| columns := [py "Movie Name"]; rows := [[1%nat]] |} ]})) as H.
  { reflexivity. }
  split; [exact H|].
  exact (proj1 (build_writes_file nat _ _ _ _ _ _ _ _ _ H)).
Defined.

(** X10. A response that passes the availability check also passes the
    status test of the build. *)
Theorem gate_implies_status_ok (r : Response) :
  check_file_exists (Responded r) = Ok true → raise_for_status r = Ok ().
Proof.
  cbn. intros [= H]. apply Z.eqb_eq in H. apply raise_for_status_ok. lia.
Qed.

Lemma gate_implies_status_ok_witness :
  check_file_exists (Responded {| status_code := 200 |}) = Ok true
  ∧ raise_for_status {| status_code := 200 |} = Ok ().
Proof.
  split; [reflexivity|].
  exact (gate_implies_status_ok {| status_code := 200 |} eq_refl).
Defined.

(** X11. Build, then load: when the build has returned a path, loading that
    path succeeds for every prior state of the warehouse, and the target
    table then holds the rows parsed from the response body under the
    sanitised column names. *)
Theorem build_then_load (U : UnicodeData) (cell : Type)
    (read_csv : str → result (DataFrame cell)) (mk : result unit)
    (web : string → get_outcome) (fs fs' wh : gmap string (DataFrame cell))
    (url out_dir parquet_name p table_id : string)
    (r : Response) (text : str) (df : DataFrame cell) (fuel : nat) :
  csv_url_to_parquet read_csv mk web fs url out_dir parquet_name = (Ok p, fs') →
  web url = Fetched r text →
  read_csv text = Ok df →
  (length (columns df) < fuel)%nat →
  ∃ wh' stdout T,
    load_parquet_to_bigquery fuel fs' wh p table_id = Ok (wh', stdout) ∧
    wh' !! table_id = Some T ∧
    rows T = rows df ∧
    returns (columns df) (columns T).
Proof.
  intros Hrun Hweb Hcsv Hfuel.
  destruct (csv_url_to_parquet_ok _ _ _ _ _ _ _ _ _ Hrun)
    as (_ & r' & text' & df' & Hweb' & _ & Hcsv' & -> & ->).
  rewrite Hweb in Hweb'. injection Hweb' as <- <-.
  rewrite Hcsv in Hcsv'. injection Hcsv' as <-.
  destruct (for_cols_total fuel (columns df) ∅) as [new Hnew].
  { rewrite size_empty. lia. }
  eexists _, _, {| columns := new; rows := rows df |}.
  split; [|split; [apply lookup_insert_eq|split; [done|by exists fuel]]].
  apply load_eval; [apply lookup_insert_eq|done].
Qed.

Lemma build_then_load_witness :
  ∃ wh' stdout T,
    load_parquet_to_bigquery (U:=ascii_only) (cell:=nat) 2
      {[ "/opt/airflow/fake_gcs/war/war.parquet"%string :=
           {| columns := [py "Movie Name"]; rows := [[1%nat]] |} ]}
      ∅ "/opt/airflow/fake_gcs/war/war.parquet" "p.d.war" = Ok (wh', stdout) ∧
    wh' !! "p.d.war"%string = Some T ∧
    rows T = [[1%nat]].
Proof.
  destruct (build_then_load ascii_only nat
    (λ _, Ok {| columns := [py "Movie Name"]; rows := [[1%nat]] |}) (Ok ())
    (λ _, Fetched {| status_code := 200 |} (py "Movie Name")) ∅
    {[ "/opt/airflow/fake_gcs/war/war.parquet"%string :=
         {| columns := [py "Movie Name"]; rows := [[1%nat]] |} ]}
    ∅ "https://host/war.csv" "/opt/airflow/fake_gcs/war" "war.parquet"
    "/opt/airflow/fake_gcs/war/war.parquet" "p.d.war"
    {| status_code := 200 |} (py "Movie Name")
    {| columns := [py "Movie Name"]; rows := [[1%nat]] |} 2%nat)
    as (wh' & out & T & H1 & H2 & H3 & _).
  - reflexivity.
  - reflexivity.
  - reflexivity.
  - simpl. lia.
  - by exists wh', out, T.
Defined.

(** * The DAG *)

(** ** Strings of paths and task ids *)

Lemma string_length_app a b :
  String.length (a +:+ b) = (String.length a + String.length b)%nat.
Proof. induction a as [|c a IH]; simpl; [done|]. by rewrite IH. Qed.

Lemma string_app_inv_tail a b t : a +:+ t = b +:+ t → a = b.
Proof.
  revert b. induction a as [|c a IH]; intros [|d b] E.
  - done.
  - apply (f_equal String.length) in E.
    change (String.length t = S (String.length (b +:+ t))) in E.
    rewrite string_length_app in E. lia.
  - apply (f_equal String.length) in E.
    change (S (String.length (a +:+ t)) = String.length t) in E.
    rewrite string_length_app in E. lia.
  - change (String c (a +:+ t) = String d (b +:+ t)) in E.
    injection E as -> E. f_equal. by apply IH.
Qed.

Lemma string_eqb_empty a : a ≠ EmptyString → String.eqb a EmptyString = false.
Proof. by destruct a. Qed.

Lemma string_app_nonempty a b : b ≠ EmptyString → a +:+ b ≠ EmptyString.
Proof. by destruct a. Qed.

Lemma starts_with_sep_app g x :
  g ≠ EmptyString → starts_with_sep (g +:+ x) = starts_with_sep g.
Proof. by destruct g. Qed.

Lemma ends_with_sep_cons c t :
  t ≠ EmptyString → ends_with_sep (String c t) = ends_with_sep t.
Proof. by destruct t. Qed.

Lemma ends_with_sep_app a g :
  g ≠ EmptyString → ends_with_sep (a +:+ g) = ends_with_sep g.
Proof.
  intros Hg. induction a as [|c a IH]; [done|].
  change (String c a +:+ g) with (String c (a +:+ g)).
  rewrite ends_with_sep_cons; [done|]. by apply string_app_nonempty.
Qed.

(** Where [os.path.join] and the f-string [f"{a}/{b}"] agree. *)
Lemma path_join_plain a b :
  a ≠ EmptyString → ends_with_sep a = false → starts_with_sep b = false →
  path_join a b = a +:+ "/" +:+ b.
Proof.
  intros Ha He Hs. unfold path_join. by rewrite Hs, (string_eqb_empty a Ha), He.
Qed.

Lemma plain_genre_parts g :
  plain_genre g = true →
  g ≠ EmptyString ∧ starts_with_sep g = false ∧ ends_with_sep g = false.
Proof.
  unfold plain_genre.
  intros [[H1 H2]%andb_true_iff H3]%andb_true_iff.
  apply negb_true_iff in H1, H2, H3. split; [|done].
  intros ->. done.
Qed.

Lemma genre_path g :
  plain_genre g = true →
  path_join (FAKE_GCS_ROOT +:+ "/" +:+ g) (g +:+ ".parquet")
  = (FAKE_GCS_ROOT +:+ "/" +:+ g) +:+ "/" +:+ g +:+ ".parquet".
Proof.
  intros (Hne & Hs & He)%plain_genre_parts. apply path_join_plain.
  - by apply string_app_nonempty, string_app_nonempty.
  - rewrite ends_with_sep_app by by apply string_app_nonempty.
    change ("/" +:+ g) with (String "/" g). by rewrite ends_with_sep_cons.
  - by rewrite starts_with_sep_app.
Qed.

(** ** Tasks and edges *)

Lemma elem_of_dag_tasks cfg genres t :
  t ∈ dag_tasks cfg genres ↔ ∃ g, g ∈ genres ∧ t ∈ genre_tasks cfg g.
Proof.
  unfold dag_tasks. induction genres as [|g rest IH]; simpl.
  - split; [by intros ?%elem_of_nil|]. by intros (g & ?%elem_of_nil & _).
  - rewrite elem_of_app, IH. split.
    + intros [H|(g' & Hg' & H)].
      * exists g. split; [by left|done].
      * exists g'. split; [by right|done].
    + intros (g' & [->|Hg']%elem_of_cons & H); [by left|]. right. by exists g'.
Qed.

Lemma elem_of_dag_edges cfg genres e :
  e ∈ dag_edges cfg genres ↔ ∃ g, g ∈ genres ∧ e ∈ genre_edges cfg g.
Proof.
  unfold dag_edges. induction genres as [|g rest IH]; simpl.
  - split; [by intros ?%elem_of_nil|]. by intros (g & ?%elem_of_nil & _).
  - rewrite elem_of_app, IH. split.
    + intros [H|(g' & Hg' & H)].
      * exists g. split; [by left|done].
      * exists g'. split; [by right|done].
    + intros (g' & [->|Hg']%elem_of_cons & H); [by left|]. right. by exists g'.
Qed.

Lemma genre_task_ids cfg g :
  task_id <$> genre_tasks cfg g =
  if ENABLE_BQ_LOAD cfg
  then [ "check_" +:+ g +:+ "_exists"; "build_" +:+ g +:+ "_parquet";
         "load_" +:+ g +:+ "_parquet_to_bigquery" ]
  else [ "check_" +:+ g +:+ "_exists"; "build_" +:+ g +:+ "_parquet" ].
Proof. unfold genre_tasks. by destruct (ENABLE_BQ_LOAD cfg). Qed.

(** A task id names its genre: the three shapes start with different
    letters, and each wraps the genre between a fixed prefix and suffix. *)
Lemma task_id_genre cfg g g' x :
  x ∈ task_id <$> genre_tasks cfg g →
  x ∈ task_id <$> genre_tasks cfg g' →
  g = g'.
Proof.
  rewrite !genre_task_ids.
  assert (∀ l l',
    l = [ "check_" +:+ g +:+ "_exists"; "build_" +:+ g +:+ "_parquet";
          "load_" +:+ g +:+ "_parquet_to_bigquery" ] →
    l' = [ "check_" +:+ g' +:+ "_exists"; "build_" +:+ g' +:+ "_parquet";
           "load_" +:+ g' +:+ "_parquet_to_bigquery" ] →
    x ∈ l → x ∈ l' → g = g') as Hall.
  { intros l l' -> ->. rewrite !elem_of_cons.
    intros [->|[->|[->|?%elem_of_nil]]] [E|[E|[E|?%elem_of_nil]]];
      try done; try discriminate E;
      injection E as E; eapply string_app_inv_tail; exact E. }
  destruct (ENABLE_BQ_LOAD cfg); intros H1 H2.
  - by eapply Hall.
  - eapply Hall; [done|done| |].
    + apply elem_of_cons in H1 as [->|H1]; [by left|]. right.
      apply elem_of_cons in H1 as [->|?%elem_of_nil]; [by left|done].
    + apply elem_of_cons in H2 as [->|H2]; [by left|]. right.
      apply elem_of_cons in H2 as [->|?%elem_of_nil]; [by left|done].
Qed.

Lemma genre_task_ids_NoDup cfg g : NoDup (task_id <$> genre_tasks cfg g).
Proof.
  rewrite genre_task_ids.
  destruct (ENABLE_BQ_LOAD cfg);
    repeat (apply NoDup_cons; split;
            [rewrite ?elem_of_cons, elem_of_nil; intros Hin;
             repeat (destruct Hin as [Hin|Hin]; [discriminate Hin|]); exact Hin|]);
    apply NoDup_nil_2.
Qed.

(** X12. Distinct genres give pairwise distinct task ids, whether or not the
    load tasks are created; with the sixteen genres of the module no id is
    used twice. *)
Theorem task_ids_distinct (cfg : Config) (genres : list string) :
  NoDup genres → NoDup (task_id <$> dag_tasks cfg genres).
Proof.
  unfold dag_tasks. induction 1 as [|g rest Hg Hnd IH]; simpl; [constructor|].
  rewrite fmap_app. apply NoDup_app. split; [apply genre_task_ids_NoDup|].
  split; [|done].
  intros x Hx (t & -> & Ht)%list_elem_of_fmap.
  apply elem_of_dag_tasks in Ht as (g' & Hg' & Ht).
  assert (g = g') as <-; [|done].
  apply (task_id_genre cfg g g' (task_id t)); [done|].
  by apply list_elem_of_fmap_2.
Qed.

Lemma task_ids_distinct_witness :
  NoDup GENRES ∧
  NoDup (task_id <$> dag_tasks
           {| GCP_PROJECT_ID := "p"; BIGQUERY_DATASET := "imdb_dataset";
              ENABLE_BQ_LOAD := true |} GENRES).
Proof.
  assert (NoDup GENRES) as H.
  { apply (bool_decide_unpack _). by vm_compute. }
  split; [exact H|]. exact (task_ids_distinct _ GENRES H).
Defined.

(** X13. For genres that are not empty and have no [/] at either end (as the
    sixteen of the module), every load task reads the very path that the
    build task upstream of it writes: the [parquet_path] given to the load is
    [os.path.join] of the [out_dir] and [parquet_name] given to the build,
    and the DAG has the edge from that build task to the load task. *)
Theorem load_reads_what_build_writes (cfg : Config) (genres : list string)
    (t : Task) (parquet_path table_id : string) :
  Forall (λ g, plain_genre g = true) genres →
  t ∈ dag_tasks cfg genres →
  task_callable t = call_load_parquet_to_bigquery parquet_path table_id →
  ∃ b url out_dir parquet_name,
    b ∈ dag_tasks cfg genres ∧
    task_callable b = call_csv_url_to_parquet url out_dir parquet_name ∧
    path_join out_dir parquet_name = parquet_path ∧
    (task_id b, task_id t) ∈ dag_edges cfg genres.
Proof.
  intros Hplain (g & Hg & Ht)%elem_of_dag_tasks Hcall.
  rewrite Forall_forall in Hplain. specialize (Hplain g Hg).
  pose proof (genre_path g Hplain) as Hpath.
  assert (ENABLE_BQ_LOAD cfg = true) as Hen.
  { unfold genre_tasks in Ht. destruct (ENABLE_BQ_LOAD cfg); [done|].
    rewrite !elem_of_cons in Ht.
    destruct Ht as [->|[->|?%elem_of_nil]]; [discriminate Hcall..|done]. }
  exists {| task_id := "build_" +:+ g +:+ "_parquet";
            task_operator := PythonOperator;
            task_callable :=
              call_csv_url_to_parquet (BASE_URL +:+ "/" +:+ g +:+ ".csv")
                (FAKE_GCS_ROOT +:+ "/" +:+ g) (g +:+ ".parquet") |},
         (BASE_URL +:+ "/" +:+ g +:+ ".csv"),
         (FAKE_GCS_ROOT +:+ "/" +:+ g), (g +:+ ".parquet").
  unfold genre_tasks in Ht. rewrite Hen in Ht. rewrite !elem_of_cons in Ht.
  destruct Ht as [->|[->|[->|?%elem_of_nil]]]; [discriminate Hcall..| |done].
  injection Hcall as <- <-.
  split; [|split; [done|split; [exact Hpath|]]].
  - apply elem_of_dag_tasks. exists g. split; [done|].
    unfold genre_tasks. rewrite Hen. right. left.
  - apply elem_of_dag_edges. exists g. split; [done|].
    unfold genre_edges. rewrite Hen. right. left.
Qed.

Lemma load_reads_what_build_writes_witness :
  Forall (λ g, plain_genre g = true) GENRES ∧
  ∃ b url out_dir parquet_name,
    task_callable b = call_csv_url_to_parquet url out_dir parquet_name ∧
    path_join out_dir parquet_name = "/opt/airflow/fake_gcs/film-noir/film-noir.parquet"%string.
Proof.
  assert (Forall (λ g, plain_genre g = true) GENRES) as Hplain.
  { repeat constructor. }
  split; [exact Hplain|].
  destruct (load_reads_what_build_writes
    {| GCP_PROJECT_ID := "p"; BIGQUERY_DATASET := "imdb_dataset";
       ENABLE_BQ_LOAD := true |} GENRES
    {| task_id := "load_film-noir_parquet_to_bigquery";
       task_operator := PythonOperator;
       task_callable := call_load_parquet_to_bigquery
         "/opt/airflow/fake_gcs/film-noir/film-noir.parquet"
         "p.imdb_dataset.film-noir" |}
    "/opt/airflow/fake_gcs/film-noir/film-noir.parquet"
    "p.imdb_dataset.film-noir" Hplain)
    as (b & url & out_dir & name & _ & Hb & Hpath & _).
  - apply elem_of_dag_tasks. exists "film-noir"%string. split.
    + apply (bool_decide_unpack _). by vm_compute.
    + right. right. left.
  - reflexivity.
  - by exists b, url, out_dir, name.
Defined.

(** X14. No edge joins the chains of two genres: the two ends of every edge
    are tasks of one and the same genre. *)
Theorem edges_within_genre (cfg : Config) (genres : list string)
    (a b g1 g2 : string) :
  (a, b) ∈ dag_edges cfg genres →
  a ∈ task_id <$> genre_tasks cfg g1 →
  b ∈ task_id <$> genre_tasks cfg g2 →
  g1 = g2.
Proof.
  intros (g & _ & He)%elem_of_dag_edges Ha Hb.
  assert (a ∈ task_id <$> genre_tasks cfg g ∧ b ∈ task_id <$> genre_tasks cfg g)
    as [Ha' Hb'].
  { rewrite genre_task_ids. unfold genre_edges in He.
    destruct (ENABLE_BQ_LOAD cfg); rewrite !elem_of_cons in He.
    - destruct He as [[= -> ->]|[[= -> ->]|?%elem_of_nil]]; [| |done];
        split; rewrite !elem_of_cons; auto.
    - destruct He as [[= -> ->]|?%elem_of_nil]; [|done].
      split; rewrite !elem_of_cons; auto. }
  rewrite (task_id_genre cfg g1 g a Ha Ha').
  by rewrite (task_id_genre cfg g2 g b Hb Hb').
Qed.

Lemma edges_within_genre_witness :
  ("check_war_exists", "build_war_parquet")%string
    ∈ dag_edges {| GCP_PROJECT_ID := "p"; BIGQUERY_DATASET := "d";
                   ENABLE_BQ_LOAD := false |} GENRES
  ∧ "war"%string = "war"%string.
Proof.
  assert (("check_war_exists", "build_war_parquet")%string
    ∈ dag_edges {| GCP_PROJECT_ID := "p"; BIGQUERY_DATASET := "d";
                   ENABLE_BQ_LOAD := false |} GENRES) as He.
  { apply (bool_decide_unpack _). by vm_compute. }
  split; [exact He|].
  apply (edges_within_genre _ _ _ _ "war" "war" He).
  - left.
  - right. left.
Defined.

(** ** The environment *)

Lemma lower_from_ascii `{UnicodeData} pre s :
  Forall (λ c, c < 128) s → lower_from pre s = ascii_tolower <$> s.
Proof.
  intros Hs. revert pre. induction Hs as [|c t Hc _ IH]; intros pre; simpl; [done|].
  apply N.ltb_lt in Hc. by rewrite Hc, IH.
Qed.

(** X15. For an ASCII value, the load is enabled exactly when
    [ENABLE_BQ_LOAD] is set to [true] in any mix of upper and lower case;
    unset, it is disabled. *)
Theorem enable_flag_ascii (U : UnicodeData) (environ : gmap string string) :
  (∀ v, environ !! "ENABLE_BQ_LOAD"%string = Some v → Forall (λ c, c < 128) (py v)) →
  ENABLE_BQ_LOAD (config_of_environ environ) = true ↔
  ∃ v, environ !! "ENABLE_BQ_LOAD"%string = Some v ∧
       ascii_tolower <$> py v = py "true".
Proof.
  intros Hascii. unfold config_of_environ, environ_get, lower. cbn [ENABLE_BQ_LOAD].
  destruct (environ !! "ENABLE_BQ_LOAD"%string) as [v|] eqn:Hv.
  - rewrite lower_from_ascii by by apply Hascii.
    rewrite bool_decide_eq_true. split.
    + intros E. by exists v.
    + by intros (v' & [= <-] & E).
  - split; [by vm_compute|]. by intros (v & ? & _).
Qed.

Lemma enable_flag_ascii_witness :
  ENABLE_BQ_LOAD (config_of_environ (H:=ascii_only)
                    {[ "ENABLE_BQ_LOAD"%string := "True"%string ]}) = true.
Proof.
  apply (enable_flag_ascii ascii_only {[ "ENABLE_BQ_LOAD"%string := "True"%string ]}).
  - intros v Hv. rewrite lookup_singleton_eq in Hv. injection Hv as <-.
    repeat constructor.
  - exists "True"%string. split; [apply lookup_singleton_eq|reflexivity].
Defined.

(** X16. With [ENABLE_BQ_LOAD] unset, the DAG has two tasks per genre and
    none of them calls [load_parquet_to_bigquery]. *)
Theorem load_disabled_by_default (U : UnicodeData) (environ : gmap string string)
    (genres : list string) :
  environ !! "ENABLE_BQ_LOAD"%string = None →
  length (dag_tasks (config_of_environ environ) genres) = (2 * length genres)%nat ∧
  ∀ t, t ∈ dag_tasks (config_of_environ environ) genres →
       ∀ p tid, task_callable t ≠ call_load_parquet_to_bigquery p tid.
Proof.
  intros Hunset.
  assert (ENABLE_BQ_LOAD (config_of_environ environ) = false) as Hoff.
  { unfold config_of_environ, environ_get. rewrite Hunset. by vm_compute. }
  split.
  - unfold dag_tasks. induction genres as [|g rest IH]; [done|].
    simpl. rewrite length_app, IH. unfold genre_tasks. rewrite Hoff. simpl. lia.
  - intros t (g & _ & Ht)%elem_of_dag_tasks p tid.
    unfold genre_tasks in Ht. rewrite Hoff in Ht. rewrite !elem_of_cons in Ht.
    by destruct Ht as [->|[->|?%elem_of_nil]].
Qed.

Lemma load_disabled_by_default_witness :
  length (dag_tasks (config_of_environ (H:=ascii_only) ∅) GENRES) = 32%nat.
Proof.
  exact (proj1 (load_disabled_by_default ascii_only ∅ GENRES (lookup_empty _))).
Defined.

(** ** Genres do not share tables or files *)

Lemma string_app_assoc a b c : (a +:+ b) +:+ c = a +:+ b +:+ c.
Proof.
  induction a as [|x a IH]; [done|].
  change (String x ((a +:+ b) +:+ c) = String x (a +:+ b +:+ c)). by rewrite IH.
Qed.

Lemma string_app_eq_length a b x y :
  a +:+ x = b +:+ y → String.length a = String.length b → a = b.
Proof.
  revert b. induction a as [|c a IH]; intros [|d b] E Hlen; try done.
  change (String c (a +:+ x) = String d (b +:+ y)) in E.
  injection E as -> E. f_equal. apply IH; [done|]. simpl in Hlen. lia.
Qed.

Lemma genre_of_path g g' :
  (FAKE_GCS_ROOT +:+ "/" +:+ g) +:+ "/" +:+ g +:+ ".parquet"
  = (FAKE_GCS_ROOT +:+ "/" +:+ g') +:+ "/" +:+ g' +:+ ".parquet" →
  g = g'.
Proof.
  rewrite !string_app_assoc. intros E%(inj (String.append _)).
  apply (inj (String.append _)) in E.
  pose proof (f_equal String.length E) as Hlen.
  rewrite !string_length_app in Hlen. simpl in Hlen.
  eapply string_app_eq_length; [exact E|lia].
Qed.

(** X17. Two load tasks of the DAG that write the same table are one and the
    same task: no two genres share a warehouse table. *)
Theorem load_tables_distinct (cfg : Config) (genres : list string)
    (t1 t2 : Task) (p1 p2 table_id : string) :
  t1 ∈ dag_tasks cfg genres →
  t2 ∈ dag_tasks cfg genres →
  task_callable t1 = call_load_parquet_to_bigquery p1 table_id →
  task_callable t2 = call_load_parquet_to_bigquery p2 table_id →
  t1 = t2.
Proof.
  intros (g1 & _ & H1)%elem_of_dag_tasks (g2 & _ & H2)%elem_of_dag_tasks C1 C2.
  unfold genre_tasks in H1, H2. destruct (ENABLE_BQ_LOAD cfg).
  - rewrite !elem_of_cons in H1, H2.
    destruct H1 as [->|[->|[->|?%elem_of_nil]]]; [discriminate C1..| |done].
    destruct H2 as [->|[->|[->|?%elem_of_nil]]]; [discriminate C2..| |done].
    injection C1 as <- <-. injection C2 as _ E.
    rewrite <- !string_app_assoc in E. apply (inj (String.append _)) in E.
    by subst.
  - rewrite !elem_of_cons in H1.
    destruct H1 as [->|[->|?%elem_of_nil]]; [discriminate C1..|done].
Qed.

Lemma load_tables_distinct_witness :
  ∃ t, t ∈ dag_tasks {| GCP_PROJECT_ID := "p"; BIGQUERY_DATASET := "d";
                        ENABLE_BQ_LOAD := true |} ["war"; "crime"]%string
       ∧ task_callable t
         = call_load_parquet_to_bigquery "/opt/airflow/fake_gcs/war/war.parquet"
             "p.d.war"
       ∧ t = t.
Proof.
  exists {| task_id := "load_war_parquet_to_bigquery";
            task_operator := PythonOperator;
            task_callable := call_load_parquet_to_bigquery
              "/opt/airflow/fake_gcs/war/war.parquet" "p.d.war" |}.
  assert ({| task_id := "load_war_parquet_to_bigquery"%string;
             task_operator := PythonOperator;
             task_callable := call_load_parquet_to_bigquery
               "/opt/airflow/fake_gcs/war/war.parquet" "p.d.war" |}
          ∈ dag_tasks {| GCP_PROJECT_ID := "p"; BIGQUERY_DATASET := "d";
                         ENABLE_BQ_LOAD := true |} ["war"; "crime"]%string) as Hin.
  { right. right. left. }
  split; [exact Hin|]. split; [reflexivity|].
  exact (load_tables_distinct _ _ _ _ _ _ _ Hin Hin eq_refl eq_refl).
Defined.

(** X18. For genres that are not empty and have no [/] at either end, two
    build tasks of the DAG that write the same path are one and the same
    task: no two genres share a staging file. *)
Theorem build_paths_distinct (cfg : Config) (genres : list string)
    (b1 b2 : Task) (u1 d1 n1 u2 d2 n2 : string) :
  Forall (λ g, plain_genre g = true) genres →
  b1 ∈ dag_tasks cfg genres →
  b2 ∈ dag_tasks cfg genres →
  task_callable b1 = call_csv_url_to_parquet u1 d1 n1 →
  task_callable b2 = call_csv_url_to_parquet u2 d2 n2 →
  path_join d1 n1 = path_join d2 n2 →
  b1 = b2.
Proof.
  intros Hplain (g1 & Hg1 & H1)%elem_of_dag_tasks (g2 & Hg2 & H2)%elem_of_dag_tasks
    C1 C2 E.
  rewrite Forall_forall in Hplain.
  assert (∀ g b u d n, plain_genre g = true → b ∈ genre_tasks cfg g →
            task_callable b = call_csv_url_to_parquet u d n →
            b = {| task_id := "build_" +:+ g +:+ "_parquet";
                   task_operator := PythonOperator;
                   task_callable :=
                     call_csv_url_to_parquet (BASE_URL +:+ "/" +:+ g +:+ ".csv")
                       (FAKE_GCS_ROOT +:+ "/" +:+ g) (g +:+ ".parquet") |}
            ∧ path_join d n
              = (FAKE_GCS_ROOT +:+ "/" +:+ g) +:+ "/" +:+ g +:+ ".parquet") as Hbuild.
  { intros g b u d n Hg Hb Hc. unfold genre_tasks in Hb.
    destruct (ENABLE_BQ_LOAD cfg); rewrite !elem_of_cons in Hb.
    - destruct Hb as [->|[->|[->|?%elem_of_nil]]];
        [discriminate Hc| |discriminate Hc|done].
      injection Hc as <- <- <-. split; [done|]. by apply genre_path.
    - destruct Hb as [->|[->|?%elem_of_nil]]; [discriminate Hc| |done].
      injection Hc as <- <- <-. split; [done|]. by apply genre_path. }
  destruct (Hbuild g1 b1 u1 d1 n1 (Hplain g1 Hg1) H1 C1) as [-> P1].
  destruct (Hbuild g2 b2 u2 d2 n2 (Hplain g2 Hg2) H2 C2) as [-> P2].
  rewrite P1, P2 in E. by rewrite (genre_of_path g1 g2 E).
Qed.

Lemma build_paths_distinct_witness :
  Forall (λ g, plain_genre g = true) ["war"; "crime"]%string ∧
  ∃ b, b ∈ dag_tasks {| GCP_PROJECT_ID := "p"; BIGQUERY_DATASET := "d";
                        ENABLE_BQ_LOAD := false |} ["war"; "crime"]%string
       ∧ b = b.
Proof.
  assert (Forall (λ g, plain_genre g = true) ["war"; "crime"]%string) as Hplain.
  { repeat constructor. }
  split; [exact Hplain|].
  exists {| task_id := "build_crime_parquet";
            task_operator := PythonOperator;
            task_callable := call_csv_url_to_parquet
              (BASE_URL +:+ "/crime.csv") "/opt/airflow/fake_gcs/crime"
              "crime.parquet" |}.
  assert ({| task_id := "build_crime_parquet"%string;
             task_operator := PythonOperator;
             task_callable := call_csv_url_to_parquet
               (BASE_URL +:+ "/crime.csv") "/opt/airflow/fake_gcs/crime"
               "crime.parquet" |}
          ∈ dag_tasks {| GCP_PROJECT_ID := "p"; BIGQUERY_DATASET := "d";
                         ENABLE_BQ_LOAD := false |} ["war"; "crime"]%string) as Hin.
  { right. right. right. left. }
  split; [exact Hin|].
  exact (build_paths_distinct _ _ _ _ _ _ _ _ _ _ Hplain Hin Hin eq_refl eq_refl eq_refl).
Defined.


